(** * crypto_news: the news pipeline of the repository, embedded in Rocq

    The development follows the JavaScript sources module by module:
    - [Sender]          src/telegram/sender.js      (message chunker, delivery)
    - [KeywordFilter]   src/filters/keywordFilter.js
    - [AiFilter]        src/filters/aiFilter.js
    - [ImpactScorer]    src/processors/impactScorer.js
    - [Deduplicator]    src/utils/deduplicator.js
    - [Pipeline]        src/index.js ([main])
    - [AiSummarizer]    src/processors/aiSummarizer.js
    - [RssFetcher]      src/fetchers/rssFetcher.js
    - [WebScraper]      src/fetchers/webScraper.js

    JavaScript strings are sequences of UTF-16 code units; numbers are
    doubles, of which the code only compares and selects. *)

From Stdlib Require Import Ascii String DecimalString.
From Stdlib Require Import Arith Lia Bool ZArith NArith QArith.
From Stdlib Require Import List Permutation Sorted.
From Equations Require Import Equations.
Import ListNotations.
Open Scope string_scope.
Open Scope list_scope.
Open Scope nat_scope.

Set Implicit Arguments.

(** ** JavaScript values as the code uses them *)

Module JS.

(** A UTF-16 code unit. *)
Definition codeunit := N.

(** A JavaScript string: its code units, so that [length] is [s.length]. *)
Definition jsstring := list codeunit.

(** An ASCII literal of the source as a JavaScript string. *)
Definition js (s : string) : jsstring :=
  map N_of_ascii (list_ascii_of_string s).

Definition NL : codeunit := 10%N.

(** Truthiness of a string: [s ? a : b] takes [a] iff [s] is not empty. *)
Definition nonempty (s : jsstring) : bool :=
  match s with [] => false | _ :: _ => true end.

Definition jsstring_eqb (a b : jsstring) : bool :=
  if list_eq_dec N.eq_dec a b then true else false.

(** [s.split('\n')] *)
Fixpoint split (s : jsstring) : list jsstring :=
  match s with
  | [] => [[]]
  | c :: s' =>
      if (c =? NL)%N then [] :: split s'
      else match split s' with
           | line :: rest => (c :: line) :: rest
           | [] => [[c]]
           end
  end.

(** [parts.join(sep)] *)
Fixpoint join (sep : jsstring) (parts : list jsstring) : jsstring :=
  match parts with
  | [] => []
  | [p] => p
  | p :: ps => p ++ sep ++ join sep ps
  end.

(** [s.repeat(n)] *)
Fixpoint repeat_str (s : jsstring) (n : nat) : jsstring :=
  match n with
  | O => []
  | S n' => s ++ repeat_str s n'
  end.

(** Template interpolation of a non-negative integer: its decimal digits. *)
Definition dec (n : nat) : jsstring :=
  js (NilZero.string_of_uint (Nat.to_uint n)).

(** [s.startsWith(p)] and [s.includes(p)] *)
Fixpoint startsWith (s p : jsstring) {struct p} : bool :=
  match p with
  | [] => true
  | a :: p' =>
      match s with
      | [] => false
      | b :: s' => (b =? a)%N && startsWith s' p'
      end
  end.

Fixpoint includes (s p : jsstring) : bool :=
  startsWith s p ||
  match s with
  | [] => false
  | _ :: s' => includes s' p
  end.

(** [l.slice(i, j)] for [0 <= i <= j] *)
Definition slice (A : Type) (i j : nat) (l : list A) : list A :=
  firstn (j - i) (skipn i l).

(** A number: a double seen as an ordered value.  The finite doubles are
    rationals; the code compares and selects numbers and takes the sign of
    one difference, none of which rounds. *)
Inductive number : Type :=
| NaN
| PosInf
| NegInf
| Fin (q : Q).

(** The values a field of a parsed JSON object can hold, and [undefined] for
    a field that is missing.  [VObj] is a nested plain object; arrays are
    left out. *)
Inductive jsval : Type :=
| VUndefined
| VNull
| VBool (b : bool)
| VNum (x : number)
| VStr (s : jsstring)
| VObj.

(** [ToNumber] of a string is the language's own numeric-literal parser. *)
Class NumberParsing := { StringToNumber : jsstring -> number }.

(** [String.prototype.toLowerCase] *)
Class CaseMapping := { toLowerCase : jsstring -> jsstring }.

(** [StringToNumber] by the grammar of numeric string literals: white space
    around, nothing (zero), [Infinity], a decimal literal with sign, fraction
    and exponent, or a binary, octal or hexadecimal integer.  The number is
    the value the literal denotes; its rounding to a double is left out. *)
Definition isWhiteSpace (c : codeunit) : bool :=
  existsb (N.eqb c)
    [9; 10; 11; 12; 13; 32; 160; 0x1680; 0x2028; 0x2029; 0x202f; 0x205f;
     0x3000; 0xfeff]%N
  || ((0x2000 <=? c) && (c <=? 0x200a))%N.

Fixpoint trimStart (s : jsstring) : jsstring :=
  match s with
  | [] => []
  | c :: s' => if isWhiteSpace c then trimStart s' else s
  end.

Definition trim (s : jsstring) : jsstring :=
  rev (trimStart (rev (trimStart s))).

Definition digitValue (base : N) (c : codeunit) : option N :=
  let d :=
    if ((48 <=? c) && (c <=? 57))%N then Some (c - 48)%N
    else if ((97 <=? c) && (c <=? 122))%N then Some (c - 87)%N
    else if ((65 <=? c) && (c <=? 90))%N then Some (c - 55)%N
    else None in
  match d with
  | Some v => if (v <? base)%N then Some v else None
  | None => None
  end.

(** The longest run of digits [s] starts with: its value, its length and
    what follows it. *)
Fixpoint digits (base : N) (s : jsstring) (acc : N) (n : nat)
  : N * nat * jsstring :=
  match s with
  | [] => (acc, n, [])
  | c :: s' =>
      match digitValue base c with
      | Some d => digits base s' (acc * base + d)%N (S n)
      | None => (acc, n, s)
      end
  end.

Definition sign (s : jsstring) : bool * jsstring :=
  match s with
  | c :: s' =>
      if (c =? 45)%N then (true, s')
      else if (c =? 43)%N then (false, s')
      else (false, s)
  | [] => (false, [])
  end.

Definition exponent (s : jsstring) : option Z :=
  match s with
  | [] => Some 0%Z
  | c :: s' =>
      if ((c =? 101) || (c =? 69))%N then
        let '(neg, s'') := sign s' in
        match digits 10 s'' 0 0 with
        | (v, S _, []) => Some (if neg then (- Z.of_N v)%Z else Z.of_N v)
        | _ => None
        end
      else None
  end.

Definition negate (x : number) : number :=
  match x with
  | NaN => NaN
  | PosInf => NegInf
  | NegInf => PosInf
  | Fin q => Fin (- q)
  end.

Definition unsignedDecimal (s : jsstring) : number :=
  if jsstring_eqb s (js "Infinity") then PosInf
  else
    let '(i, ni, s1) := digits 10 s 0 0 in
    let '(f, nf, s2) :=
      match s1 with
      | c :: s1' => if (c =? 46)%N then digits 10 s1' 0 0 else (0%N, 0, s1)
      | [] => (0%N, 0, s1)
      end in
    match ni + nf with
    | O => NaN
    | S _ =>
        match exponent s2 with
        | Some e =>
            Fin ((inject_Z (Z.of_N i)
                  + inject_Z (Z.of_N f) / inject_Z (10 ^ Z.of_nat nf))
                 * 10 ^ e)
        | None => NaN
        end
    end.

Definition radixInteger (base : N) (s : jsstring) : number :=
  match digits base s 0 0 with
  | (v, S _, []) => Fin (inject_Z (Z.of_N v))
  | _ => NaN
  end.

Definition literalValue (s : jsstring) : number :=
  match trim s with
  | [] => Fin 0
  | c :: t =>
      let decimal :=
        let '(neg, u) := sign (c :: t) in
        if neg then negate (unsignedDecimal u) else unsignedDecimal u in
      if (c =? 48)%N then
        match t with
        | x :: t' =>
            if ((x =? 120) || (x =? 88))%N then radixInteger 16 t'
            else if ((x =? 111) || (x =? 79))%N then radixInteger 8 t'
            else if ((x =? 98) || (x =? 66))%N then radixInteger 2 t'
            else decimal
        | [] => decimal
        end
      else decimal
  end.

Definition literalParsing : NumberParsing :=
  {| StringToNumber := literalValue |}.

(** [toLowerCase] on a text whose cased letters are all ASCII. *)
Definition asciiCase : CaseMapping :=
  {| toLowerCase :=
       map (fun c => if (65 <=? c)%N && (c <=? 90)%N then (c + 32)%N else c)
  |}.

(** [a < b] on numbers *)
Definition ltb (a b : number) : bool :=
  match a, b with
  | NaN, _ => false
  | _, NaN => false
  | PosInf, _ => false
  | _, PosInf => true
  | NegInf, NegInf => false
  | NegInf, Fin _ => true
  | Fin _, NegInf => false
  | Fin x, Fin y => negb (Qle_bool y x)
  end.

Definition isNaN (a : number) : bool :=
  match a with NaN => true | _ => false end.

(** [a >= b] on numbers *)
Definition geb (a b : number) : bool :=
  negb (isNaN a) && negb (isNaN b) && negb (ltb a b).

(** [a === b] on numbers *)
Definition eqb (a b : number) : bool :=
  match a, b with
  | PosInf, PosInf => true
  | NegInf, NegInf => true
  | Fin x, Fin y => Qeq_bool x y
  | _, _ => false
  end.

(** [typeof v === 'number'] and [typeof v === 'boolean'] *)
Definition isNumber (v : jsval) : bool :=
  match v with VNum _ => true | _ => false end.

Definition isBoolean (v : jsval) : bool :=
  match v with VBool _ => true | _ => false end.

(** [Math.min(a, b)] and [Math.max(a, b)] on numbers *)
Definition Math_min (a b : number) : number :=
  if isNaN a || isNaN b then NaN else if ltb b a then b else a.

Definition Math_max (a b : number) : number :=
  if isNaN a || isNaN b then NaN else if ltb a b then b else a.

(** [a - b] on numbers *)
Definition sub (a b : number) : number :=
  match a, b with
  | NaN, _ => NaN
  | _, NaN => NaN
  | PosInf, PosInf => NaN
  | NegInf, NegInf => NaN
  | PosInf, _ => PosInf
  | NegInf, _ => NegInf
  | Fin _, PosInf => NegInf
  | Fin _, NegInf => PosInf
  | Fin x, Fin y => Fin (x - y)
  end.

(** Truthiness *)
Definition truthy (v : jsval) : bool :=
  match v with
  | VUndefined => false
  | VNull => false
  | VBool b => b
  | VNum NaN => false
  | VNum (Fin q) => negb (Qeq_bool q 0)
  | VNum _ => true
  | VStr s => nonempty s
  | VObj => true
  end.

(** [a || b] *)
Definition or (a b : jsval) : jsval := if truthy a then a else b.

(** [v !== undefined] *)
Definition isDefined (v : jsval) : bool :=
  match v with VUndefined => false | _ => true end.

Definition ToNumber `{NumberParsing} (v : jsval) : number :=
  match v with
  | VUndefined => NaN
  | VNull => Fin 0
  | VBool b => if b then Fin 1 else Fin 0
  | VNum x => x
  | VStr s => StringToNumber s
  | VObj => NaN
  end.

(** How a call ends: it returns, or it throws an [Error] with a message. *)
Inductive completion (A : Type) : Type :=
| Normal (value : A)
| Throw (message : jsstring).
Arguments Throw {A} message.

(** [try { body } catch (error) { handler(error.message) }] *)
Definition tryCatch (A : Type) (body : completion A)
    (handler : jsstring -> completion A) : completion A :=
  match body with
  | Normal a => Normal a
  | Throw message => handler message
  end.

(** An entry of the array [Promise.allSettled] resolves to. *)
Inductive settled (A : Type) : Type :=
| Fulfilled (value : A)
| Rejected (reason : jsstring).
Arguments Rejected {A} reason.

Definition settle (A : Type) (c : completion A) : settled A :=
  match c with
  | Normal a => Fulfilled a
  | Throw message => Rejected message
  end.

(** [Array.prototype.sort(cmp)]: the sort is stable, an element moves behind
    another one only when the comparator puts it after ([cmp x y > 0]). *)
Section Sort.
Variable A : Type.
Variable cmp : A -> A -> number.

Fixpoint insert (x : A) (l : list A) : list A :=
  match l with
  | [] => [x]
  | y :: l' => if ltb (Fin 0) (cmp x y) then y :: insert x l'
               else x :: y :: l'
  end.

Fixpoint sort (l : list A) : list A :=
  match l with
  | [] => []
  | x :: l' => insert x (sort l')
  end.
End Sort.

End JS.
Import JS.

(** ** The records that travel through the pipeline *)

(** The [matches] object of [countCategoryMatches]. *)
Record Matches : Type := {
  crypto : bool;
  fed : bool;
  macro : bool;
  categoryCount : nat
}.

(** The [validated] object of [scoreImpact]. *)
Record Impact : Type := {
  policyStrength : number;
  expectationGap : number;
  timeUrgency : number;
  cryptoRelevance : number;
  totalScore : number;
  level : jsval;
  direction : jsval;
  reasoning : jsval
}.

(** A news item, with the fields that later stages attach to it. *)
Record NewsItem : Type := {
  title : jsstring;
  description : jsstring;
  url : jsstring;
  publishedAt : Z;
  source : jsstring;
  keywordMatches : option Matches;
  aiScore : option jsval;
  aiReason : option jsval;
  impact : option Impact
}.

Definition set_keywordMatches (item : NewsItem) (m : Matches) : NewsItem :=
  {| title := title item; description := description item; url := url item;
     publishedAt := publishedAt item; source := source item;
     keywordMatches := Some m;
     aiScore := aiScore item; aiReason := aiReason item;
     impact := impact item |}.

Definition set_ai (item : NewsItem) (score reason : jsval) : NewsItem :=
  {| title := title item; description := description item; url := url item;
     publishedAt := publishedAt item; source := source item;
     keywordMatches := keywordMatches item;
     aiScore := Some score; aiReason := Some reason;
     impact := impact item |}.

Definition set_impact (item : NewsItem) (i : Impact) : NewsItem :=
  {| title := title item; description := description item; url := url item;
     publishedAt := publishedAt item; source := source item;
     keywordMatches := keywordMatches item;
     aiScore := aiScore item; aiReason := aiReason item;
     impact := Some i |}.

(** ** src/telegram/sender.js *)

Module Sender.

Definition TELEGRAM_MAX_MESSAGE_LENGTH : nat := 4096.

(** The inner [while (remaining.length > maxLength)] loop of [splitMessage].
    With [maxLength = 0] the source loop never ends; [fuel] bounds the
    iterations and [None] stands for a loop that has not finished. *)
Fixpoint hardSplit (fuel maxLength : nat) (messages : list jsstring)
    (remaining : jsstring) : option (list jsstring * jsstring) :=
  if maxLength <? length remaining then
    match fuel with
    | O => None
    | S fuel' =>
        hardSplit fuel' maxLength
          (messages ++ [firstn maxLength remaining])
          (skipn maxLength remaining)
    end
  else Some (messages, remaining).

(** The body of [for (const line of lines)], on the pair
    [(messages, currentMessage)]. *)
Definition splitLine (maxLength : nat) (st : list jsstring * jsstring)
    (line : jsstring) : option (list jsstring * jsstring) :=
  let '(messages, currentMessage) := st in
  if length currentMessage + length line + 1 <=? maxLength then
    Some (messages,
          currentMessage ++ (if nonempty currentMessage then [NL] else [])
                         ++ line)
  else
    let messages :=
      if nonempty currentMessage then messages ++ [currentMessage]
      else messages in
    if maxLength <? length line then
      hardSplit (length line) maxLength messages line
    else Some (messages, line).

Fixpoint forLines (maxLength : nat) (lines : list jsstring)
    (st : list jsstring * jsstring) : option (list jsstring * jsstring) :=
  match lines with
  | [] => Some st
  | line :: rest =>
      match splitLine maxLength st line with
      | Some st' => forLines maxLength rest st'
      | None => None
      end
  end.

(** The chunks that are pushed once the loop is over. *)
Definition flush (st : list jsstring * jsstring) : list jsstring :=
  let '(messages, currentMessage) := st in
  if nonempty currentMessage then messages ++ [currentMessage] else messages.

Definition splitMessage (message : jsstring) (maxLength : nat)
  : option (list jsstring) :=
  if length message <=? maxLength then Some [message]
  else option_map flush (forLines maxLength (split message) ([], [])).


(** With the default [maxLength] the loop of [splitMessage] always ends
    (see [splitMessage_terminates]); the chunks of a message to send. *)
Definition chunks (message : jsstring) : list jsstring :=
  match splitMessage message TELEGRAM_MAX_MESSAGE_LENGTH with
  | Some messages => messages
  | None => []
  end.

(** [process.env] as the sender reads it: a variable holds a string or is
    not set. *)
Record Env : Type := {
  TELEGRAM_BOT_TOKEN : option jsstring;
  TELEGRAM_CHAT_ID : option jsstring
}.

(** [!value] for a variable of [process.env] *)
Definition unset (value : option jsstring) : bool :=
  match value with
  | Some s => negb (nonempty s)
  | None => true
  end.

(** 'TELEGRAM_BOT_TOKEN 环境变量未设置' *)
Definition TOKEN_UNSET : jsstring :=
  js "TELEGRAM_BOT_TOKEN "
    ++ [0x73af; 0x5883; 0x53d8; 0x91cf; 0x672a; 0x8bbe; 0x7f6e]%N.

(** 'TELEGRAM_CHAT_ID 环境变量未设置' *)
Definition CHAT_ID_UNSET : jsstring :=
  js "TELEGRAM_CHAT_ID "
    ++ [0x73af; 0x5883; 0x53d8; 0x91cf; 0x672a; 0x8bbe; 0x7f6e]%N.

(** [initBot()]: it throws when the token or the chat id is not set.  The
    module keeps the bot once it is built, and none is built by a call that
    throws; the program never writes [process.env], so within a run every
    call ends as the first one does. *)
Definition initBot (env : Env) : completion unit :=
  if unset (TELEGRAM_BOT_TOKEN env) then Throw TOKEN_UNSET
  else if unset (TELEGRAM_CHAT_ID env) then Throw CHAT_ID_UNSET
  else Normal tt.

(** The delivery collaborator: what the [n]-th call of [bot.sendMessage]
    does with a text.  The functions below thread the number of calls. *)
Definition channel := nat -> jsstring -> completion unit.

(** The [for (let i = 0; i < retries; i++)] loop of [sendMessageWithRetry];
    [left] is [retries - i]. *)
Fixpoint retryLoop (chan : channel) (message : jsstring) (left n : nat)
  : nat * completion bool :=
  match left with
  | O => (n, Normal false)
  | S left' =>
      match chan n message with
      | Normal _ => (S n, Normal true)
      | Throw e =>
          match left' with
          | O => (S n, Throw e)
          | S _ => retryLoop chan message left' (S n)
          end
      end
  end.

(** [sendMessageWithRetry(message)]: [initBot()] comes first, outside the
    [try] of the loop. *)
Definition sendMessageWithRetry (env : Env) (chan : channel)
    (message : jsstring) (n : nat) : nat * completion bool :=
  match initBot env with
  | Throw e => (n, Throw e)
  | Normal _ => retryLoop chan message 3 n
  end.

(** [for (const msg of messages) { await sendMessageWithRetry(msg); ... }] *)
Fixpoint sendAll (env : Env) (chan : channel) (messages : list jsstring)
    (n : nat) : nat * completion unit :=
  match messages with
  | [] => (n, Normal tt)
  | msg :: rest =>
      match sendMessageWithRetry env chan msg n with
      | (n', Normal _) => sendAll env chan rest n'
      | (n', Throw e) => (n', Throw e)
      end
  end.

(** '\n\n' + '─'.repeat(30) + '\n\n' *)
Definition separator : jsstring :=
  [NL; NL] ++ repeat_str [0x2500%N] 30 ++ [NL; NL].

(** `📊 今日新闻 (${i + 1}/${summaries.length})\n\n` *)
Definition header (i total : nat) : jsstring :=
  [0xd83d; 0xdcca; 0x20; 0x4eca; 0x65e5; 0x65b0; 0x95fb; 0x20; 0x28]%N
    ++ dec (i + 1) ++ js "/" ++ dec total ++ js ")" ++ [NL; NL].

(** The loop of the last branch of [sendNewsSummaries]: every summary is
    sent on its own inside a [try], a failure is logged and skipped. *)
Fixpoint sendSeparately (env : Env) (chan : channel) (total : nat)
    (summaries : list jsstring) (i successCount n : nat) : nat * nat :=
  match summaries with
  | [] => (n, successCount)
  | summary :: rest =>
      let fullMessage := header i total ++ summary in
      let messages := chunks fullMessage in
      match sendAll env chan messages n with
      | (n', Normal _) =>
          sendSeparately env chan total rest (S i) (S successCount) n'
      | (n', Throw _) =>
          sendSeparately env chan total rest (S i) successCount n'
      end
  end.

(** [sendNewsSummaries(summaries)]: with something to send, [initBot()] is
    called before a branch is chosen, outside every [try]. *)
Definition sendNewsSummaries (env : Env) (chan : channel)
    (summaries : list jsstring) (n : nat) : nat * completion nat :=
  match summaries with
  | [] => (n, Normal 0)
  | _ :: _ =>
      match initBot env with
      | Throw e => (n, Throw e)
      | Normal _ =>
          match summaries with
          | [summary] =>
              match sendAll env chan (chunks summary) n with
              | (n', Normal _) => (n', Normal 1)
              | (n', Throw e) => (n', Throw e)
              end
          | _ =>
              let combined := join separator summaries in
              if length combined <=? TELEGRAM_MAX_MESSAGE_LENGTH then
                match sendAll env chan (chunks combined) n with
                | (n', Normal _) => (n', Normal (length summaries))
                | (n', Throw e) => (n', Throw e)
                end
              else
                let '(n', successCount) :=
                  sendSeparately env chan (length summaries) summaries 0 0 n
                in
                (n', Normal successCount)
          end
      end
  end.

(** [sendSimpleMessage(message)]: the chunks are sent inside a [try]; a
    failure, that of [initBot()] too, is logged and answered by [false]. *)
Definition sendSimpleMessage (env : Env) (chan : channel)
    (message : jsstring) (n : nat) : nat * completion bool :=
  match sendAll env chan (chunks message) n with
  | (n', Normal _) => (n', Normal true)
  | (n', Throw _) => (n', Normal false)
  end.

End Sender.

(** ** src/filters/keywordFilter.js *)

Module KeywordFilter.

Definition KEYWORDS_crypto : list jsstring := map js
  [ "crypto"; "cryptocurrency"; "bitcoin"; "btc"; "ethereum"; "eth";
    "blockchain"; "digital currency"; "stablecoin"; "defi"; "nft";
    "altcoin"; "token"; "wallet"; "exchange"; "mining"; "hash";
    "satoshi"; "hodl"; "fiat"; "crypto market"; "digital asset" ].

Definition KEYWORDS_fed : list jsstring := map js
  [ "federal reserve"; "fed"; "fomc"; "interest rate"; "monetary policy";
    "powell"; "inflation"; "deflation"; "quantitative easing"; "qe";
    "tapering"; "rate hike"; "rate cut"; "federal funds rate";
    "central bank"; "jerome powell"; "fed chair" ].

Definition KEYWORDS_macro : list jsstring := map js
  [ "gdp"; "unemployment"; "cpi"; "ppi"; "treasury"; "bond yield";
    "economic growth"; "recession"; "stagflation"; "fiscal policy";
    "government spending"; "debt ceiling"; "trade deficit"; "surplus";
    "employment"; "job market"; "consumer price"; "producer price";
    "economic indicator"; "macroeconomic" ].

Section WithCaseMapping.
Context `{CaseMapping}.

Definition containsKeywords (text : jsstring) (keywords : list jsstring)
  : bool :=
  if negb (nonempty text) then false
  else
    let lowerText := toLowerCase text in
    existsb (fun keyword => includes lowerText (toLowerCase keyword))
            keywords.

(** `${title} ${description}` *)
Definition combinedText (title description : jsstring) : jsstring :=
  title ++ js " " ++ description.

Definition countCategoryMatches (title description : jsstring) : Matches :=
  let text := combinedText title description in
  let c := containsKeywords text KEYWORDS_crypto in
  let f := containsKeywords text KEYWORDS_fed in
  let m := containsKeywords text KEYWORDS_macro in
  {| crypto := c; fed := f; macro := m;
     categoryCount := length (filter (fun b : bool => b) [c; f; m]) |}.

(** [news.filter(item => ...)]; a retained item is the input object with
    [keywordMatches] set on it. *)
Fixpoint filterByKeywords (news : list NewsItem) : list NewsItem :=
  match news with
  | [] => []
  | item :: rest =>
      let matches := countCategoryMatches (title item) (description item) in
      if 2 <=? categoryCount matches then
        set_keywordMatches item matches :: filterByKeywords rest
      else filterByKeywords rest
  end.
End WithCaseMapping.

End KeywordFilter.

(** ** Parsed oracle answers *)

(** The object [JSON.parse] returns, as a finite map from property names;
    reading a property that is missing gives [undefined]. *)
Definition object := list (string * jsval).

Fixpoint get (o : object) (key : string) : jsval :=
  match o with
  | [] => VUndefined
  | (k, v) :: o' => if String.eqb k key then v else get o' key
  end.

(** What one call of the oracle comes to: the client or the API call throws
    ([Failed], with the error's message), or there is a text, of which the
    code keeps what [content.match(/\{[\s\S]*\}/)] followed by [JSON.parse]
    makes of it (an object, or a thrown error) and, for the relevance
    prompt, the number the fallback pattern for [score] finds, if any. *)
Inductive reply : Type :=
| Failed (message : jsstring)
| Answered (parsed : completion object) (scoreMatch : option number).

(** ** src/filters/aiFilter.js *)

Module AiFilter.

(** The object [judgeRelevance] returns. *)
Record Judgment : Type := {
  score : jsval;
  reason : jsval;
  relevant : jsval
}.

(** 'AI 返回格式异常，使用默认评分' *)
Definition FORMAT_FALLBACK : jsstring :=
  [0x41; 0x49; 0x20; 0x8fd4; 0x56de; 0x683c; 0x5f0f; 0x5f02; 0x5e38; 0xff0c;
   0x4f7f; 0x7528; 0x9ed8; 0x8ba4; 0x8bc4; 0x5206]%N.

(** '无理由' *)
Definition NO_REASON : jsstring := [0x65e0; 0x7406; 0x7531]%N.

(** 'AI 判断出错: ' *)
Definition JUDGE_ERROR : jsstring :=
  [0x41; 0x49; 0x20; 0x5224; 0x65ad; 0x51fa; 0x9519; 0x3a; 0x20]%N.

Section WithNumberParsing.
Context `{NumberParsing}.

(** The inner [try]/[catch (parseError)]: the parsed object, or the object
    built from the fallback pattern. *)
Definition parseResult (parsed : completion object)
    (scoreMatch : option number) : completion object :=
  tryCatch parsed (fun _ =>
    let score := match scoreMatch with Some x => x | None => Fin 5 end in
    Normal [ ("score", VNum score);
             ("reason", VStr FORMAT_FALLBACK);
             ("relevant", VBool (geb score (Fin 6))) ]).

(** [judgeRelevance(newsItem)]; the item only enters the prompt and the
    log, the model takes the oracle's reply to that prompt. *)
Definition judgeRelevance (r : reply) : completion Judgment :=
  tryCatch
    match r with
    | Failed message => Throw message
    | Answered parsed scoreMatch =>
        match parseResult parsed scoreMatch with
        | Normal result =>
            Normal
              {| score := or (get result "score") (VNum (Fin 0));
                 reason := or (get result "reason") (VStr NO_REASON);
                 relevant :=
                   if isDefined (get result "relevant")
                   then get result "relevant"
                   else VBool (geb (ToNumber (get result "score")) (Fin 6))
              |}
        | Throw message => Throw message
        end
    end
    (fun message =>
       Normal {| score := VNum (Fin 5);
                 reason := VStr (JUDGE_ERROR ++ message);
                 relevant := VBool true |}).

Definition batchSize : nat := 5.

(** [batch.map(async (item) => { judgment = await judgeRelevance(item);
    return { item, judgment } })] under [Promise.allSettled] *)
Definition settleBatch (batch : list (NewsItem * reply))
  : list (settled (NewsItem * Judgment)) :=
  map (fun call : NewsItem * reply =>
         settle match judgeRelevance (snd call) with
                | Normal judgment => Normal (fst call, judgment)
                | Throw message => Throw message
                end)
      batch.

(** [for (const result of results)]; [k] is [results.indexOf(result)].
    A rejected entry has no [item], so the code pushes [batch[k]]. *)
Fixpoint forResults (batch : list (NewsItem * reply))
    (results : list (settled (NewsItem * Judgment))) (k : nat)
    (filtered : list NewsItem) : list NewsItem :=
  match results with
  | [] => filtered
  | Fulfilled (item, judgment) :: rest =>
      let item' := set_ai item (score judgment) (reason judgment) in
      forResults batch rest (S k)
        (if truthy (relevant judgment) then filtered ++ [item']
         else filtered)
  | Rejected _ :: rest =>
      forResults batch rest (S k)
        match nth_error batch k with
        | Some call => filtered ++ [fst call]
        | None => filtered
        end
  end.

(** [for (let i = 0; i < news.length; i += batchSize)] *)
Equations? batchLoop (news : list (NewsItem * reply)) (i : nat)
    (filtered : list NewsItem) : list NewsItem
    by wf (length news - i) lt :=
  batchLoop news i filtered with lt_dec i (length news) => {
    | left _ =>
        let batch := slice i (i + batchSize) news in
        batchLoop news (i + batchSize)
          (forResults batch (settleBatch batch) 0 filtered)
    | right _ => filtered }.
Proof. unfold batchSize. lia. Qed.

(** [filterByAI(news)], each item paired with the oracle's reply on it. *)
Definition filterByAI (news : list (NewsItem * reply)) : list NewsItem :=
  match news with
  | [] => []
  | _ :: _ => batchLoop news 0 []
  end.
End WithNumberParsing.

End AiFilter.

(** ** src/processors/impactScorer.js *)

Module ImpactScorer.

(** '中等影响' *)
Definition LEVEL_MEDIUM : jsstring := [0x4e2d; 0x7b49; 0x5f71; 0x54cd]%N.

(** '中性' *)
Definition DIRECTION_NEUTRAL : jsstring := [0x4e2d; 0x6027]%N.

(** 'AI 评分失败，使用默认值' *)
Definition PARSE_FAILED : jsstring :=
  [0x41; 0x49; 0x20; 0x8bc4; 0x5206; 0x5931; 0x8d25; 0xff0c; 0x4f7f; 0x7528;
   0x9ed8; 0x8ba4; 0x503c]%N.

(** '无理由说明' *)
Definition NO_REASONING : jsstring :=
  [0x65e0; 0x7406; 0x7531; 0x8bf4; 0x660e]%N.

(** '评分出错: ' *)
Definition SCORING_ERROR : jsstring :=
  [0x8bc4; 0x5206; 0x51fa; 0x9519; 0x3a; 0x20]%N.

(** The object assigned to [result] in [catch (parseError)]. *)
Definition defaultResult : object :=
  [ ("policyStrength", VNum (Fin 10));
    ("expectationGap", VNum (Fin 10));
    ("timeUrgency", VNum (Fin 10));
    ("cryptoRelevance", VNum (Fin 10));
    ("totalScore", VNum (Fin 40));
    ("level", VStr LEVEL_MEDIUM);
    ("direction", VStr DIRECTION_NEUTRAL);
    ("reasoning", VStr PARSE_FAILED) ].

(** The object returned from the outer [catch (error)]. *)
Definition errorImpact (message : jsstring) : Impact :=
  {| policyStrength := Fin 10;
     expectationGap := Fin 10;
     timeUrgency := Fin 10;
     cryptoRelevance := Fin 10;
     totalScore := Fin 40;
     level := VStr LEVEL_MEDIUM;
     direction := VStr DIRECTION_NEUTRAL;
     reasoning := VStr (SCORING_ERROR ++ message) |}.

Section WithNumberParsing.
Context `{NumberParsing}.

(** [Math.max(0, Math.min(hi, v || 0))] *)
Definition clamp (hi : Q) (v : jsval) : number :=
  Math_max (Fin 0) (Math_min (Fin hi) (ToNumber (or v (VNum (Fin 0))))).

Definition validate (result : object) : Impact :=
  {| policyStrength := clamp 25 (get result "policyStrength");
     expectationGap := clamp 25 (get result "expectationGap");
     timeUrgency := clamp 25 (get result "timeUrgency");
     cryptoRelevance := clamp 25 (get result "cryptoRelevance");
     totalScore := clamp 100 (get result "totalScore");
     level := or (get result "level") (VStr LEVEL_MEDIUM);
     direction := or (get result "direction") (VStr DIRECTION_NEUTRAL);
     reasoning := or (get result "reasoning") (VStr NO_REASONING) |}.

(** [scoreImpact(newsItem)], on the oracle's reply for the item. *)
Definition scoreImpact (r : reply) : completion Impact :=
  tryCatch
    match r with
    | Failed message => Throw message
    | Answered parsed _ =>
        match tryCatch parsed (fun _ => Normal defaultResult) with
        | Normal result => Normal (validate result)
        | Throw message => Throw message
        end
    end
    (fun message => Normal (errorImpact message)).

(** The body of the loop of [scoreAllNewsImpact]: [item.impact] is set in
    the [try] or, when [scoreImpact] throws, in the [catch]. *)
Definition scoreItem (call : NewsItem * reply) : NewsItem :=
  match scoreImpact (snd call) with
  | Normal impact => set_impact (fst call) impact
  | Throw message => set_impact (fst call) (errorImpact message)
  end.

(** [item.impact?.totalScore || 0] *)
Definition sortKey (item : NewsItem) : number :=
  match impact item with
  | Some i => if truthy (VNum (totalScore i)) then totalScore i else Fin 0
  | None => Fin 0
  end.

(** [(a, b) => (b.impact?.totalScore || 0) - (a.impact?.totalScore || 0)] *)
Definition byImpact (a b : NewsItem) : number :=
  sub (sortKey b) (sortKey a).

Definition scoreAllNewsImpact (news : list (NewsItem * reply))
  : list NewsItem :=
  match news with
  | [] => []
  | _ :: _ => sort byImpact (map scoreItem news)
  end.
End WithNumberParsing.

End ImpactScorer.

(** ** src/utils/deduplicator.js *)

Module Deduplicator.

(** A ledger record.  [sentAt] is [new Date(record.sentAt).getTime()], the
    milliseconds of the stored date string, [None] when the string is not a
    date (the code then computes with [NaN]). *)
Record DedupRecord : Type := {
  r_url : jsstring;
  r_title : jsstring;
  sentAt : option Z
}.

(** The backing store [data/sent_news.json]: no file, a file the [try] block
    fails on, or a document with its [records] array ([[]] without one). *)
Inductive store : Type :=
| Absent
| Unreadable
| Document (records : list DedupRecord).

Definition MAX_AGE_DAYS : Z := 30.

Definition maxAge : Z := MAX_AGE_DAYS * 24 * 60 * 60 * 1000.

(** [(now - recordTime) < maxAge], false on an invalid date *)
Definition valid (now : Z) (record : DedupRecord) : bool :=
  match sentAt record with
  | Some recordTime => (now - recordTime <? maxAge)%Z
  | None => false
  end.

(** The result of [loadSentNews]: the store as the call leaves it, the
    [urls] set (its elements) and [records]. *)
Record Loaded : Type := {
  file : store;
  urls : list jsstring;
  records : list DedupRecord
}.

(** [loadSentNews()] at the instant [now] *)
Definition loadSentNews (now : Z) (f : store) : Loaded :=
  match f with
  | Absent => {| file := Document []; urls := []; records := [] |}
  | Unreadable => {| file := Unreadable; urls := []; records := [] |}
  | Document recs =>
      let validRecords := filter (valid now) recs in
      {| file := f; urls := map r_url validRecords; records := validRecords |}
  end.

(** [sentUrls.has(url)] *)
Definition isNewsSent (url : jsstring) (sentUrls : list jsstring) : bool :=
  existsb (jsstring_eqb url) sentUrls.

Definition filterUnsentNews (news : list NewsItem) (sentUrls : list jsstring)
  : list NewsItem :=
  filter (fun item => negb (isNewsSent (url item) sentUrls)) news.

(** [saveSentNews(news, existingRecords)]: the document written to the
    store.  The source reads the clock for [sentAt] of the new records and
    again for the filter; the call is taken to happen at one instant [now]. *)
Definition saveSentNews (now : Z) (news : list NewsItem)
    (existingRecords : list DedupRecord) : store :=
  let newRecords :=
    map (fun item => {| r_url := url item; r_title := title item;
                        sentAt := Some now |}) news in
  let allRecords := existingRecords ++ newRecords in
  let validRecords := filter (valid now) allRecords in
  Document validRecords.

(** The file system under [fs.mkdirSync] and [fs.writeFileSync]: it takes
    the document, or the call throws and the file is left as it was. *)
Definition disk := store -> completion unit.

(** The store once [loadSentNews] has returned.  For a missing file the
    function writes the empty document inside its [try]: when that write
    throws, the [catch] answers with no url and no record, which is what the
    function returns for a missing file anyway, and the file is still
    missing. *)
Definition afterLoad (d : disk) (f : store) (loaded : Loaded) : store :=
  match f with
  | Absent =>
      match d (file loaded) with
      | Normal _ => file loaded
      | Throw _ => Absent
      end
  | _ => file loaded
  end.

End Deduplicator.

(** ** src/index.js: [main] *)

Module Pipeline.
Import Deduplicator.

(** How the run ends: an early [return], [process.exit(0)] after the ledger
    is saved, or [process.exit(1)] from the [catch]. *)
Inductive ending : Type := Returned | Exit0 | Exit1.

(** From the scored news on: load the ledger, drop what was sent, summarize
    ([summarizeAllNews] yields one summary per item, in order), send, save.
    [loadSentNews] reads the clock at [loadNow] and [saveSentNews], after
    the summaries are made and sent, at [saveNow].  A throw of
    [sendNewsSummaries] or of [saveSentNews], which rethrows what the file
    system throws, reaches the [catch] of [main].  The result is the store
    after the run and how the run ended. *)
Definition main (env : Sender.Env) (chan : Sender.channel) (d : disk)
    (loadNow saveNow : Z) (summarize : NewsItem -> jsstring)
    (scoredNews : list NewsItem) (f : store) : store * ending :=
  let loaded := loadSentNews loadNow f in
  let sentUrls := urls loaded in
  let existingRecords := records loaded in
  let unsentNews := filterUnsentNews scoredNews sentUrls in
  match unsentNews with
  | [] => (afterLoad d f loaded, Returned)
  | _ :: _ =>
      let summaries := map summarize unsentNews in
      match Sender.sendNewsSummaries env chan summaries 0 with
      | (_, Normal sentCount) =>
          let document := saveSentNews saveNow unsentNews existingRecords in
          match d document with
          | Normal _ => (document, Exit0)
          | Throw _ => (afterLoad d f loaded, Exit1)
          end
      | (_, Throw _) => (afterLoad d f loaded, Exit1)
      end
  end.

(** The whole of [main], from the news the fetchers return: an empty stage
    ends the run with a notice ([sendSimpleMessage], which never throws) and
    an early [return]; otherwise the scored news go through steps 5 to 8.
    [relevance] and [impactAnswer] are the oracle's replies on an item. *)
Definition run `{CaseMapping} `{NumberParsing} (env : Sender.Env)
    (chan : Sender.channel) (d : disk) (loadNow saveNow : Z)
    (relevance impactAnswer : NewsItem -> reply)
    (summarize : NewsItem -> jsstring) (allNews : list NewsItem)
    (f : store) : store * ending :=
  match allNews with
  | [] => (f, Returned)
  | _ :: _ =>
      match KeywordFilter.filterByKeywords allNews with
      | [] => (f, Returned)
      | keywordFiltered =>
          match AiFilter.filterByAI
                  (map (fun item => (item, relevance item)) keywordFiltered)
          with
          | [] => (f, Returned)
          | aiFiltered =>
              let scoredNews :=
                ImpactScorer.scoreAllNewsImpact
                  (map (fun item => (item, impactAnswer item)) aiFiltered) in
              main env chan d loadNow saveNow summarize scoredNews f
          end
      end
  end.

End Pipeline.

(** ** src/processors/aiSummarizer.js *)

(** What the summarizer leaves to the language: [`${x}`] on a number and the
    two date formats [toLocaleString('zh-CN')] and
    [toLocaleString('zh-CN', {year, month, day, hour, minute})]. *)
Class Formatting := {
  numberToString : number -> jsstring;
  toLocaleString : Z -> jsstring;
  toLocaleStringMinutes : Z -> jsstring
}.

(** [`${v}`] *)
Definition ToString `{Formatting} (v : jsval) : jsstring :=
  match v with
  | VUndefined => js "undefined"
  | VNull => js "null"
  | VBool b => if b then js "true" else js "false"
  | VNum x => numberToString x
  | VStr s => s
  | VObj => js "[object Object]"
  end.

(** A call of the oracle for a summary: the call throws, or there is a text
    [content] with what extracting and parsing its JSON object gives. *)
Inductive summaryReply : Type :=
| SummaryFailed (message : jsstring)
| SummaryAnswered (content : jsstring) (parsed : completion object).

Module AiSummarizer.

(** '📰 ' *)
Definition HEADLINE : jsstring := [0xd83d; 0xdcf0; 0x20]%N.

(** '\n⏰ ' *)
Definition CLOCK : jsstring := [0xa; 0x23f0; 0x20]%N.

(** '\n🔍 核心要点：\n' *)
Definition CORE_POINTS : jsstring :=
  [0xa; 0xd83d; 0xdd0d; 0x20; 0x6838; 0x5fc3; 0x8981; 0x70b9; 0xff1a; 0xa]%N.

(** '\n\n💡 市场影响：\n' *)
Definition MARKET_IMPACT : jsstring :=
  [0xa; 0xa; 0xd83d; 0xdca1; 0x20; 0x5e02; 0x573a; 0x5f71; 0x54cd; 0xff1a;
   0xa]%N.

(** '\n\n🔗 原文链接：' *)
Definition LINK : jsstring :=
  [0xa; 0xa; 0xd83d; 0xdd17; 0x20; 0x539f; 0x6587; 0x94fe; 0x63a5; 0xff1a]%N.

(** '需要进一步分析' *)
Definition NEEDS_ANALYSIS : jsstring :=
  [0x9700; 0x8981; 0x8fdb; 0x4e00; 0x6b65; 0x5206; 0x6790]%N.

(** '无摘要' *)
Definition NO_SUMMARY : jsstring := [0x65e0; 0x6458; 0x8981]%N.

(** '无影响分析' *)
Definition NO_IMPACT_ANALYSIS : jsstring :=
  [0x65e0; 0x5f71; 0x54cd; 0x5206; 0x6790]%N.

(** '无法生成摘要' *)
Definition CANNOT_SUMMARIZE : jsstring :=
  [0x65e0; 0x6cd5; 0x751f; 0x6210; 0x6458; 0x8981]%N.

(** '无法分析市场影响' *)
Definition CANNOT_ANALYSE : jsstring :=
  [0x65e0; 0x6cd5; 0x5206; 0x6790; 0x5e02; 0x573a; 0x5f71; 0x54cd]%N.

(** '\n📊 Fed → Crypto 影响评分：' *)
Definition IMPACT_HEAD : jsstring :=
  [0xa; 0xd83d; 0xdcca; 0x20; 0x46; 0x65; 0x64; 0x20; 0x2192; 0x20; 0x43;
   0x72; 0x79; 0x70; 0x74; 0x6f; 0x20; 0x5f71; 0x54cd; 0x8bc4; 0x5206;
   0xff1a]%N.

(** '\n   • 政策力度：' *)
Definition POLICY : jsstring :=
  [0xa; 0x20; 0x20; 0x20; 0x2022; 0x20; 0x653f; 0x7b56; 0x529b; 0x5ea6;
   0xff1a]%N.

(** '/25\n   • 预期差：' *)
Definition GAP : jsstring :=
  [0x2f; 0x32; 0x35; 0xa; 0x20; 0x20; 0x20; 0x2022; 0x20; 0x9884; 0x671f;
   0x5dee; 0xff1a]%N.

(** '/25\n   • 时间紧迫：' *)
Definition URGENCY : jsstring :=
  [0x2f; 0x32; 0x35; 0xa; 0x20; 0x20; 0x20; 0x2022; 0x20; 0x65f6; 0x95f4;
   0x7d27; 0x8feb; 0xff1a]%N.

(** '/25\n   • 加密相关：' *)
Definition RELEVANCE : jsstring :=
  [0x2f; 0x32; 0x35; 0xa; 0x20; 0x20; 0x20; 0x2022; 0x20; 0x52a0; 0x5bc6;
   0x76f8; 0x5173; 0xff1a]%N.

(** '/25\n   💭 ' *)
Definition THOUGHT : jsstring :=
  [0x2f; 0x32; 0x35; 0xa; 0x20; 0x20; 0x20; 0xd83d; 0xdcad; 0x20]%N.

(** '\n\n🔗 ' *)
Definition SHORT_LINK : jsstring := [0xa; 0xa; 0xd83d; 0xdd17; 0x20]%N.

(** '🔴', '🟠', '🟡', '🟢', '⚪' *)
Definition RED : jsstring := [0xd83d; 0xdd34]%N.
Definition ORANGE : jsstring := [0xd83d; 0xdfe0]%N.
Definition YELLOW : jsstring := [0xd83d; 0xdfe1]%N.
Definition GREEN : jsstring := [0xd83d; 0xdfe2]%N.
Definition WHITE : jsstring := [0x26aa]%N.

(** '📈', '📉', '➡️' *)
Definition UP : jsstring := [0xd83d; 0xdcc8]%N.
Definition DOWN : jsstring := [0xd83d; 0xdcc9]%N.
Definition RIGHT : jsstring := [0x27a1; 0xfe0f]%N.

(** '利好', '利空' *)
Definition BULLISH : jsstring := [0x5229; 0x597d]%N.
Definition BEARISH : jsstring := [0x5229; 0x7a7a]%N.

Definition getImpactEmoji (score : number) : jsstring :=
  if geb score (Fin 80) then RED
  else if geb score (Fin 60) then ORANGE
  else if geb score (Fin 40) then YELLOW
  else if geb score (Fin 20) then GREEN
  else WHITE.

(** [direction === '利好'] holds of that string only. *)
Definition getDirectionEmoji (direction : jsval) : jsstring :=
  match direction with
  | VStr s =>
      if jsstring_eqb s BULLISH then UP
      else if jsstring_eqb s BEARISH then DOWN
      else RIGHT
  | _ => RIGHT
  end.

Section WithFormatting.
Context `{Formatting}.

(** [impactSection], empty without [newsItem.impact]. *)
Definition impactSection (item : NewsItem) : jsstring :=
  match impact item with
  | None => []
  | Some i =>
      IMPACT_HEAD ++ getImpactEmoji (totalScore i) ++ js " *"
        ++ numberToString (totalScore i) ++ js "/100* ("
        ++ ToString (level i) ++ js ") "
        ++ getDirectionEmoji (direction i) ++ ToString (direction i)
        ++ POLICY ++ numberToString (policyStrength i)
        ++ GAP ++ numberToString (expectationGap i)
        ++ URGENCY ++ numberToString (timeUrgency i)
        ++ RELEVANCE ++ numberToString (cryptoRelevance i)
        ++ THOUGHT ++ ToString (reasoning i) ++ [NL]
  end.

(** The object assigned to [result] in [catch (parseError)]. *)
Definition rawResult (content : jsstring) : object :=
  [ ("summary", or (VStr (firstn 200 content)) (VStr CANNOT_SUMMARIZE));
    ("marketImpact", VStr CANNOT_ANALYSE) ].

(** [summarizeNews(newsItem)], on the oracle's reply for the item;
    [publishedAt] is a [Date], which is truthy. *)
Definition summarizeNews (item : NewsItem) (r : summaryReply)
  : completion jsstring :=
  tryCatch
    match r with
    | SummaryFailed message => Throw message
    | SummaryAnswered content parsed =>
        match tryCatch parsed (fun _ => Normal (rawResult content)) with
        | Normal result =>
            Normal
              (HEADLINE ++ title item
                 ++ CLOCK ++ toLocaleStringMinutes (publishedAt item)
                 ++ [NL] ++ impactSection item
                 ++ CORE_POINTS
                 ++ ToString (or (get result "summary") (VStr NO_SUMMARY))
                 ++ MARKET_IMPACT
                 ++ ToString (or (get result "marketImpact")
                                 (VStr NO_IMPACT_ANALYSIS))
                 ++ LINK ++ url item)
        | Throw message => Throw message
        end
    end
    (fun _ =>
       Normal
         (HEADLINE ++ title item
            ++ CLOCK ++ toLocaleString (publishedAt item)
            ++ [NL] ++ impactSection item
            ++ CORE_POINTS
            ++ (if nonempty (description item) then description item
                else NO_SUMMARY)
            ++ MARKET_IMPACT ++ NEEDS_ANALYSIS
            ++ LINK ++ url item)).

(** The text pushed in the [catch] of the loop of [summarizeAllNews]. *)
Definition fallbackSummary (item : NewsItem) : jsstring :=
  HEADLINE ++ title item
    ++ CLOCK ++ toLocaleString (publishedAt item)
    ++ impactSection item
    ++ [NL]
    ++ (if nonempty (description item) then description item
        else NO_SUMMARY)
    ++ SHORT_LINK ++ url item.

(** The body of the loop of [summarizeAllNews]: what is pushed for an item. *)
Definition summaryOf (call : NewsItem * summaryReply) : jsstring :=
  match summarizeNews (fst call) (snd call) with
  | Normal summary => summary
  | Throw _ => fallbackSummary (fst call)
  end.

Fixpoint summarizeLoop (news : list (NewsItem * summaryReply))
    (summaries : list jsstring) : list jsstring :=
  match news with
  | [] => summaries
  | call :: rest => summarizeLoop rest (summaries ++ [summaryOf call])
  end.

Definition summarizeAllNews (news : list (NewsItem * summaryReply))
  : list jsstring :=
  match news with
  | [] => []
  | _ :: _ => summarizeLoop news []
  end.

End WithFormatting.

End AiSummarizer.

(** ** src/fetchers/rssFetcher.js and src/fetchers/webScraper.js *)

(** A source of the configuration. *)
Record Source : Type := {
  s_name : jsstring;
  s_url : jsstring;
  s_enabled : bool;
  s_selector : option jsstring
}.

Inductive origin : Type := rss | web.

(** A news record as a fetcher builds it; [n_publishedAt] is the time of
    the [Date], [None] for an invalid one. *)
Record FetchedNews : Type := {
  n_title : jsstring;
  n_description : jsstring;
  n_url : jsstring;
  n_publishedAt : option Z;
  n_source : jsstring;
  n_type : origin
}.

(** [a || b] on a string that may be missing. *)
Definition orElse (a : option jsstring) (b : option jsstring)
  : option jsstring :=
  match a with
  | Some s => if nonempty s then a else b
  | None => b
  end.

(** [a || ''] *)
Definition orEmpty (a : option jsstring) : jsstring :=
  match orElse a (Some []) with
  | Some s => s
  | None => []
  end.

Module RssFetcher.

(** An item of a parsed feed; a field the feed lacks is [None].
    [fi_pubTime] is [new Date(item.pubDate).getTime()], [None] for an
    invalid date. *)
Record FeedItem : Type := {
  fi_title : option jsstring;
  fi_contentSnippet : option jsstring;
  fi_content : option jsstring;
  fi_summary : option jsstring;
  fi_link : option jsstring;
  fi_guid : option jsstring;
  fi_pubDate : option jsstring;
  fi_pubTime : option Z
}.

(** The object built for an item of the feed, at the instant [now]. *)
Definition toNews (now : Z) (source : Source) (item : FeedItem)
  : FetchedNews :=
  {| n_title := orEmpty (fi_title item);
     n_description :=
       orEmpty (orElse (fi_contentSnippet item)
                  (orElse (fi_content item) (fi_summary item)));
     n_url := orEmpty (orElse (fi_link item) (fi_guid item));
     n_publishedAt :=
       match orElse (fi_pubDate item) None with
       | Some _ => fi_pubTime item
       | None => Some now
       end;
     n_source := s_name source;
     n_type := rss |}.

(** [fetchRSSFeed(source)], on what [parser.parseURL] comes to: it throws,
    or gives a feed with its [items] ([None] without any). *)
Definition fetchRSSFeed (now : Z) (source : Source)
    (feed : completion (option (list FeedItem)))
  : completion (list FetchedNews) :=
  tryCatch
    match feed with
    | Throw message => Throw message
    | Normal None => Normal []
    | Normal (Some []) => Normal []
    | Normal (Some items) => Normal (map (toNews now source) items)
    end
    (fun _ => Normal []).

(** [fetchAllRSSFeeds(sources)], each source with what fetching it gives. *)
Definition fetchAllRSSFeeds (now : Z)
    (sources : list (Source * completion (option (list FeedItem))))
  : list FetchedNews :=
  let enabledSources := filter (fun s => s_enabled (fst s)) sources in
  match enabledSources with
  | [] => []
  | _ :: _ =>
      let results :=
        map (fun s => settle (fetchRSSFeed now (fst s) (snd s)))
            enabledSources in
      flat_map (fun result =>
                  match result with
                  | Fulfilled value => value
                  | Rejected _ => []
                  end)
               (filter (fun result =>
                          match result with
                          | Fulfilled _ => true
                          | Rejected _ => false
                          end)
                       results)
  end.

End RssFetcher.

Module WebScraper.

(** What the selectors find in one element of the page: the trimmed text of
    the title, the [href] of the first link if any, the trimmed texts of the
    description and of the date; what [new URL(href, source.url).href]
    comes to, a URL or a throw, which the code asks for a link that does not
    start with 'http'; and [new Date(dateText).getTime()], [None] for an
    invalid date. *)
Record Element : Type := {
  e_title : jsstring;
  e_href : option jsstring;
  e_resolved : completion jsstring;
  e_description : jsstring;
  e_dateText : jsstring;
  e_dateTime : option Z
}.

(** [parseDate(dateText)]: the time of the date, [None] for [null];
    [dateTime] is what [new Date(dateText).getTime()] gives. *)
Definition parseDate (dateText : jsstring) (dateTime : option Z)
  : option Z :=
  if negb (nonempty dateText) then None
  else dateTime.

(** The callback of [items.each]: [news] after the element, or a throw of
    [new URL]. *)
Definition eachElement (now : Z) (source : Source)
    (news : list FetchedNews) (element : Element)
  : completion (list FetchedNews) :=
  let title := e_title element in
  let url := orEmpty (e_href element) in
  let description := e_description element in
  let dateText := e_dateText element in
  if nonempty title && nonempty url then
    match (if startsWith url (js "http") then Normal url
           else e_resolved element) with
    | Normal fullUrl =>
        Normal
          (news ++
           [ {| n_title := title;
                n_description := description;
                n_url := fullUrl;
                n_publishedAt :=
                  match parseDate dateText (e_dateTime element) with
                  | Some t => Some t
                  | None => Some now
                  end;
                n_source := s_name source;
                n_type := web |} ])
    | Throw message => Throw message
    end
  else Normal news.

Fixpoint each (now : Z) (source : Source) (elements : list Element)
    (news : list FetchedNews) : completion (list FetchedNews) :=
  match elements with
  | [] => Normal news
  | element :: rest =>
      match eachElement now source news element with
      | Normal news' => each now source rest news'
      | Throw message => Throw message
      end
  end.

(** [scrapeWebPage(source)], on what [axios.get] and the selector come to:
    a throw, or the elements selected. *)
Definition scrapeWebPage (now : Z) (source : Source)
    (page : completion (list Element)) : completion (list FetchedNews) :=
  tryCatch
    match page with
    | Throw message => Throw message
    | Normal [] => Normal []
    | Normal items => each now source items []
    end
    (fun _ => Normal []).

Definition scrapeAllWebPages (now : Z)
    (sources : list (Source * completion (list Element)))
  : list FetchedNews :=
  let enabledSources := filter (fun s => s_enabled (fst s)) sources in
  match enabledSources with
  | [] => []
  | _ :: _ =>
      let results :=
        map (fun s => settle (scrapeWebPage now (fst s) (snd s)))
            enabledSources in
      flat_map (fun result =>
                  match result with
                  | Fulfilled value => value
                  | Rejected _ => []
                  end)
               (filter (fun result =>
                          match result with
                          | Fulfilled _ => true
                          | Rejected _ => false
                          end)
                       results)
  end.

End WebScraper.

(** ** Predicates of the statements *)

(** What the loop has produced so far keeps within [maxLength] and holds no
    empty chunk. *)
Definition chunks_ok (maxLength : nat) (st : list jsstring * jsstring) : Prop :=
  Forall (fun c => length c <= maxLength /\ c <> []) (fst st)
  /\ length (snd st) <= maxLength.

(** A text without its newline code units. *)
Definition withoutNL (s : jsstring) : jsstring :=
  filter (fun c => negb (c =? NL)%N) s.

(** [pieces] cuts [line] for the limit [maxLength]: a line within the limit
    is left whole; a longer one is made of its pieces, none of them empty or
    above the limit. *)
Definition cut (maxLength : nat) (line : jsstring) (pieces : list jsstring)
  : Prop :=
  if length line <=? maxLength then pieces = [line]
  else concat pieces = line
       /\ Forall (fun p => p <> [] /\ length p <= maxLength) pieces.

(** The rows [rows] laid out in [chunks].  Every chunk is a run of
    consecutive rows joined by newlines, and its first row is not empty.
    Rows are left out only before a run or after the last one, only empty
    ones, and only where [blank] allows it: at the very beginning, and
    behind a chunk of exactly [maxLength] code units.  [kept] are the rows
    of the runs, that is the rows that are not left out. *)
Inductive laid (maxLength : nat)
  : bool -> list jsstring -> list jsstring -> list jsstring -> Prop :=
| laid_end (blank : bool) : laid maxLength blank [] [] []
| laid_drop (rows kept chunks : list jsstring) :
    laid maxLength true rows kept chunks ->
    laid maxLength true ([] :: rows) kept chunks
| laid_chunk (blank : bool) (row : jsstring)
    (run rows kept chunks : list jsstring) :
    row <> [] ->
    laid maxLength (length (join [NL] (row :: run)) =? maxLength)
      rows kept chunks ->
    laid maxLength blank ((row :: run) ++ rows) ((row :: run) ++ kept)
      (join [NL] (row :: run) :: chunks).

(** [p] occurs in [s]. *)
Definition isSubstring (p s : jsstring) : Prop :=
  exists pre post, s = pre ++ p ++ post.

(** A keyword of the category occurs in the text, whatever the case. *)
Definition categoryMatches `{CaseMapping} (keywords : list jsstring)
    (text : jsstring) : Prop :=
  exists keyword,
    In keyword keywords
    /\ isSubstring (toLowerCase keyword) (toLowerCase text).

Definition atLeastTwo (a b c : Prop) : Prop :=
  (a /\ b) \/ (a /\ c) \/ (b /\ c).

(** A news item as the fetchers build it. *)
Definition fetched (t d u : jsstring) : NewsItem :=
  {| title := t; description := d; url := u; publishedAt := 0%Z;
     source := js "rss"; keywordMatches := None; aiScore := None;
     aiReason := None; impact := None |}.

(** The number is finite and lies between [lo] and [hi]. *)
Definition within (lo hi : Q) (x : number) : Prop :=
  exists q, x = Fin q /\ (lo <= q)%Q /\ (q <= hi)%Q.

(** [item.impact.totalScore] *)
Definition total (item : NewsItem) : number :=
  match impact item with
  | Some i => totalScore i
  | None => NaN
  end.

(** An answer of the oracle to the impact prompt with two fields that are
    not numbers:
    {"policyStrength":"high","expectationGap":20,"timeUrgency":15,
     "cryptoRelevance":20,"totalScore":"75/100","level":"高影响",
     "direction":"利空"} *)
Definition nonNumericResult : object :=
  [ ("policyStrength", VStr (js "high"));
    ("expectationGap", VNum (Fin 20));
    ("timeUrgency", VNum (Fin 15));
    ("cryptoRelevance", VNum (Fin 20));
    ("totalScore", VStr (js "75/100"));
    ("level", VStr [0x9ad8; 0x5f71; 0x54cd]%N);
    ("direction", VStr [0x5229; 0x7a7a]%N) ].

(** An answer of the oracle that reports the total [t] only. *)
Definition totalOnly (t : Q) : reply :=
  Answered (Normal [("totalScore", VNum (Fin t))]) None.

(** What becomes of one item and the oracle's reply on it in [filterByAI]:
    the items pushed to [filtered] for it. *)
Definition kept `{NumberParsing} (call : NewsItem * reply) : list NewsItem :=
  match AiFilter.judgeRelevance (snd call) with
  | Normal judgment =>
      if truthy (AiFilter.relevant judgment)
      then [set_ai (fst call) (AiFilter.score judgment)
                              (AiFilter.reason judgment)]
      else []
  | Throw _ => [fst call]
  end.

(** [result.status === 'fulfilled'] *)
Definition isFulfilled (A : Type) (r : settled A) : bool :=
  match r with Fulfilled _ => true | Rejected _ => false end.

(** An answer of the oracle to the relevance prompt with a score and a flag
    that are strings: {"score":"8/10","reason":"Fed","relevant":"yes"} *)
Definition stringlyResult : object :=
  [ ("score", VStr (js "8/10"));
    ("reason", VStr (js "Fed"));
    ("relevant", VStr (js "yes")) ].

(** The records of the ledger document, none when there is no document. *)
Definition storedRecords (f : Deduplicator.store)
  : list Deduplicator.DedupRecord :=
  match f with
  | Deduplicator.Document recs => recs
  | _ => []
  end.

(** The record [saveSentNews] makes of a delivered item at [now]. *)
Definition recordOf (now : Z) (item : NewsItem) : Deduplicator.DedupRecord :=
  {| Deduplicator.r_url := url item;
     Deduplicator.r_title := title item;
     Deduplicator.sentAt := Some now |}.

(** Two news items whose summaries do not fit one message together, and a
    channel that refuses every message about the first of them. *)
Definition fedItem : NewsItem :=
  fetched (js "Fed holds rates") (js "FOMC statement")
          (js "https://example.org/fed").

Definition btcItem : NewsItem :=
  fetched (js "Bitcoin falls") (js "Markets react")
          (js "https://example.org/btc").

Definition longSummary (item : NewsItem) : jsstring :=
  title item ++ [NL] ++ repeat_str (js "x") 2500.

Definition refusesFed : Sender.channel :=
  fun _ message =>
    if includes message (js "Fed") then Throw (js "ETELEGRAM")
    else Normal tt.

(** The environment of a run with the token and the chat id of the bot, and
    one in which the token is not set. *)
Definition configured : Sender.Env :=
  {| Sender.TELEGRAM_BOT_TOKEN := Some (js "123456:ABC-DEF");
     Sender.TELEGRAM_CHAT_ID := Some (js "-1001234567890") |}.

Definition tokenUnset : Sender.Env :=
  {| Sender.TELEGRAM_BOT_TOKEN := None;
     Sender.TELEGRAM_CHAT_ID := Some (js "-1001234567890") |}.

(** A variable of the environment is set: it holds a string that is not
    empty. *)
Definition isSet (value : option jsstring) : Prop :=
  exists s, value = Some s /\ s <> [].

(** A file system that takes every document, and one that takes none. *)
Definition accepting : Deduplicator.disk := fun _ => Normal tt.

Definition diskFull : Deduplicator.disk := fun _ => Throw (js "ENOSPC").

(** An item whose title ends and whose description begins inside the
    keyword "fed". *)
Definition splitFedItem : NewsItem :=
  fetched (js "fe") (js "d bitcoin") (js "https://example.org/4").

(** Items that match no, one, two and three keyword categories. *)
Definition weatherItem : NewsItem :=
  fetched (js "Weather today") (js "Sunny") (js "https://example.org/0").

Definition rallyItem : NewsItem :=
  fetched (js "Bitcoin rallies") (js "Price up") (js "https://example.org/1").

Definition ratesItem : NewsItem :=
  fetched (js "Bitcoin and the Fed") (js "Rates") (js "https://example.org/2").

Definition macroItem : NewsItem :=
  fetched (js "Fed, GDP and Bitcoin") [] (js "https://example.org/3").

(** Telegram as the transport contract has it: a text that is not empty and
    has at most 4096 code units is accepted. *)
Definition telegramAccepts (chan : Sender.channel) : Prop :=
  forall n message,
    message <> [] ->
    length message <= Sender.TELEGRAM_MAX_MESSAGE_LENGTH ->
    chan n message = Normal tt.

(** A channel that refuses the empty text and texts above the limit, and
    nothing else. *)
Definition strictTelegram : Sender.channel :=
  fun _ message =>
    if nonempty message && (length message <=? 4096)
    then Normal tt else Throw (js "Bad Request").

(** The messages [sendNewsSummaries] hands over for the summaries: the
    summary when there is one; the summaries joined by the separator when
    that makes at most 4096 code units; otherwise every summary behind its
    header, which numbers it from 1. *)
Definition messagesOf (summaries : list jsstring) : list jsstring :=
  match summaries with
  | [] => []
  | [summary] => [summary]
  | _ =>
      if length (join Sender.separator summaries) <=? 4096
      then [join Sender.separator summaries]
      else map (fun numbered =>
                  Sender.header (fst numbered) (length summaries)
                    ++ snd numbered)
               (combine (seq 0 (length summaries)) summaries)
  end.

(** The channel that takes, as its [n]-th call, the [n]-th text of [texts]
    and nothing else. *)
Definition expecting (texts : list jsstring) : Sender.channel :=
  fun n message =>
    match nth_error texts n with
    | Some text =>
        if jsstring_eqb message text then Normal tt
        else Throw (js "unexpected text")
    | None => Throw (js "unexpected call")
    end.

(** A text Telegram takes: not empty and of at most 4096 code units. *)
Definition deliverable (text : jsstring) : Prop :=
  text <> [] /\ length text <= 4096.

(** An answer of the oracle that gives the score 9 and [relevant: false]. *)
Definition highButIrrelevant : object :=
  [ ("score", VNum (Fin 9)); ("relevant", VBool false) ].

(** An answer of the oracle to the impact prompt with numbers out of range,
    a number in a string and fields that are missing:
    {"policyStrength":-5,"expectationGap":"30","timeUrgency":12.5,
     "totalScore":250} *)
Definition outOfRangeResult : object :=
  [ ("policyStrength", VNum (Fin (-5)));
    ("expectationGap", VStr (js "30"));
    ("timeUrgency", VNum (Fin 12.5));
    ("totalScore", VNum (Fin 250)) ].

(** What a configured RSS source adds to the fetched news: the records of
    its items when it is enabled and its feed is read, nothing otherwise. *)
Definition rssContribution (now : Z)
    (s : Source * completion (option (list RssFetcher.FeedItem)))
  : list FetchedNews :=
  if s_enabled (fst s) then
    match snd s with
    | Normal (Some items) => map (RssFetcher.toNews now (fst s)) items
    | _ => []
    end
  else [].

(** [n] is the record of [element], found on the page of [source] at the
    instant [now]: the title of the element, which is not empty; its
    description; its link, as it stands when it starts with 'http' and
    resolved against the page otherwise; the date the element shows when it
    shows one that parses, and [now] when it shows none or one that does not
    parse; the name of the source and the type web. *)
Definition scrapedFrom (now : Z) (source : Source)
    (element : WebScraper.Element) (n : FetchedNews) : Prop :=
  n_title n = WebScraper.e_title element
  /\ n_title n <> []
  /\ n_description n = WebScraper.e_description element
  /\ (exists href,
        WebScraper.e_href element = Some href /\ href <> []
        /\ if startsWith href (js "http") then n_url n = href
           else WebScraper.e_resolved element = Normal (n_url n))
  /\ n_publishedAt n
     = Some match WebScraper.e_dateText element,
                  WebScraper.e_dateTime element with
            | _ :: _, Some t => t
            | _, _ => now
            end
  /\ n_source n = s_name source
  /\ n_type n = web.

(** A page source, an element with an absolute link and one whose relative
    link is no URL. *)
Definition speeches : Source :=
  {| s_name := js "Federal Reserve Speeches";
     s_url := js "https://www.federalreserve.gov/newsevents/speeches.htm";
     s_enabled := true;
     s_selector := Some (js ".eventlist-item") |}.

Definition absoluteElement : WebScraper.Element :=
  {| WebScraper.e_title := js "Powell on inflation";
     WebScraper.e_href := Some (js "https://www.federalreserve.gov/a.htm");
     WebScraper.e_resolved := Normal (js "https://www.federalreserve.gov/a.htm");
     WebScraper.e_description := js "Speech";
     WebScraper.e_dateText := [];
     WebScraper.e_dateTime := None |}.

Definition brokenElement : WebScraper.Element :=
  {| WebScraper.e_title := js "Waller on payments";
     WebScraper.e_href := Some (js "//[");
     WebScraper.e_resolved := Throw (js "Invalid URL");
     WebScraper.e_description := js "Speech";
     WebScraper.e_dateText := [];
     WebScraper.e_dateTime := None |}.

(** RSS sources: two that are switched on, one that is switched off, and an
    item of a feed. *)
Definition fedPress : Source :=
  {| s_name := js "Federal Reserve Press Releases";
     s_url := js "https://www.federalreserve.gov/feeds/press_all.xml";
     s_enabled := true;
     s_selector := None |}.

Definition coinDesk : Source :=
  {| s_name := js "CoinDesk";
     s_url := js "https://www.coindesk.com/arc/outboundfeeds/rss/";
     s_enabled := true;
     s_selector := None |}.

Definition switchedOff : Source :=
  {| s_name := js "Bloomberg Markets";
     s_url := js "https://feeds.bloomberg.com/markets/news.rss";
     s_enabled := false;
     s_selector := None |}.

Definition feedItem (t link : jsstring) : RssFetcher.FeedItem :=
  {| RssFetcher.fi_title := Some t;
     RssFetcher.fi_contentSnippet := None;
     RssFetcher.fi_content := None;
     RssFetcher.fi_summary := None;
     RssFetcher.fi_link := Some link;
     RssFetcher.fi_guid := None;
     RssFetcher.fi_pubDate := None;
     RssFetcher.fi_pubTime := None |}.

Unset Implicit Arguments.

(** * Properties *)

(** ** The message chunker *)

Section Chunker.
Import Sender.

Lemma hardSplit_spec (maxLength : nat) :
  1 <= maxLength ->
  forall fuel messages remaining,
    length remaining <= fuel ->
    exists pieces rest,
      hardSplit fuel maxLength messages remaining
        = Some (messages ++ pieces, rest)
      /\ concat pieces ++ rest = remaining
      /\ Forall (fun p => length p = maxLength) pieces
      /\ length rest <= maxLength
      /\ (remaining <> [] -> rest <> [])
      /\ (length remaining <= maxLength -> pieces = []).
Proof.
  intros Hmax fuel.
  induction fuel as [|fuel IH]; intros messages remaining Hfuel; simpl.
  - destruct remaining; [|simpl in Hfuel; lia].
    exists [], []. simpl. rewrite app_nil_r.
    destruct (Nat.ltb_spec maxLength 0); [lia|]. repeat split; auto; lia.
  - destruct (Nat.ltb_spec maxLength (length remaining)) as [Hlt|Hle].
    + destruct (IH (messages ++ [firstn maxLength remaining])
                   (skipn maxLength remaining)) as (pieces & rest & E & Hc & Hp & Hr & Hne & _).
      { rewrite length_skipn. lia. }
      exists (firstn maxLength remaining :: pieces), rest.
      rewrite E, <- app_assoc. simpl. repeat split; auto.
      * rewrite <- app_assoc, Hc. apply firstn_skipn.
      * constructor; auto. rewrite length_firstn. lia.
      * intros _. apply Hne. intro E0.
        apply (f_equal (@length _)) in E0. rewrite length_skipn in E0.
        simpl in E0. lia.
      * lia.
    + exists [], remaining. rewrite app_nil_r. simpl. repeat split; auto.
Qed.



Lemma nonempty_true (s : jsstring) : nonempty s = true <-> s <> [].
Proof. destruct s; simpl; split; congruence. Qed.

Lemma nonempty_false (s : jsstring) : nonempty s = false <-> s = [].
Proof. destruct s; simpl; split; congruence. Qed.

Lemma push_current_ok (maxLength : nat) messages currentMessage :
  chunks_ok maxLength (messages, currentMessage) ->
  Forall (fun c => length c <= maxLength /\ c <> [])
    (if nonempty currentMessage then messages ++ [currentMessage]
     else messages).
Proof.
  intros [Hm Hc]. simpl in *.
  destruct (nonempty currentMessage) eqn:E; auto.
  apply Forall_app. split; auto.
  constructor; auto. split; auto. now apply nonempty_true.
Qed.

Lemma splitLine_ok (maxLength : nat) st line :
  1 <= maxLength ->
  chunks_ok maxLength st ->
  exists st', splitLine maxLength st line = Some st' /\ chunks_ok maxLength st'.
Proof.
  intros Hmax Hst. destruct st as [messages currentMessage].
  pose proof (push_current_ok _ _ _ Hst) as Hpush.
  unfold splitLine.
  destruct (Nat.leb_spec (length currentMessage + length line + 1) maxLength)
    as [Hfit|Hover].
  - eexists. split; [reflexivity|]. destruct Hst as [Hm Hc]. split; auto.
    simpl. rewrite !length_app.
    destruct (nonempty currentMessage) eqn:E; simpl; [lia|].
    apply nonempty_false in E. subst. simpl. lia.
  - destruct (Nat.ltb_spec maxLength (length line)) as [Hlong|Hshort].
    + destruct (hardSplit_spec maxLength Hmax
                  (length line)
                  (if nonempty currentMessage
                   then messages ++ [currentMessage] else messages)
                  line (le_n _))
        as (pieces & rest & E & _ & Hp & Hr & _ & _).
      eexists. split; [exact E|]. split; auto. simpl.
      apply Forall_app. split; auto.
      eapply Forall_impl; [|exact Hp]. simpl. intros p Hlen. split; [lia|].
      intro E0. subst p. simpl in Hlen. lia.
    + eexists. split; [reflexivity|]. split; auto.
Qed.

Lemma forLines_ok (maxLength : nat) lines :
  1 <= maxLength ->
  forall st, chunks_ok maxLength st ->
  exists st', forLines maxLength lines st = Some st' /\ chunks_ok maxLength st'.
Proof.
  intros Hmax. induction lines as [|line rest IH]; intros st Hst; simpl.
  - eauto.
  - destruct (splitLine_ok maxLength st line Hmax Hst) as (st1 & E & H1).
    rewrite E. now apply IH.
Qed.

(** The loop of [splitMessage] ends for every [maxLength >= 1]. *)
Lemma splitMessage_terminates (message : jsstring) (maxLength : nat) :
  1 <= maxLength -> splitMessage message maxLength <> None.
Proof.
  intros Hmax. unfold splitMessage.
  destruct (length message <=? maxLength); [discriminate|].
  destruct (forLines_ok maxLength (split message) Hmax ([], [])) as (st & E & _).
  { split; simpl; [constructor | lia]. }
  rewrite E. discriminate.
Qed.

(** C2: for every text and every [maxLen >= 1], [splitMessage] returns, every
    chunk it returns has at most [maxLen] code units, and when the text is
    not empty and longer than [maxLen] no chunk is the empty string. *)
Theorem splitMessage_chunks_within_limit (text : jsstring) (maxLen : nat) :
  1 <= maxLen ->
  exists chunks,
    splitMessage text maxLen = Some chunks
    /\ Forall (fun c => length c <= maxLen) chunks
    /\ (text <> [] -> maxLen < length text -> Forall (fun c => c <> []) chunks).
Proof.
  intros Hmax. unfold splitMessage.
  destruct (Nat.leb_spec (length text) maxLen) as [Hfit|Hlong].
  - exists [text]. split; [reflexivity|]. split.
    + constructor; auto.
    + intros _ Hlt. lia.
  - destruct (forLines_ok maxLen (split text) Hmax ([], []))
      as ([messages currentMessage] & E & Hok).
    { split; simpl; [constructor | lia]. }
    rewrite E. simpl. eexists. split; [reflexivity|].
    pose proof (push_current_ok _ _ _ Hok) as Hall.
    split; [|intros _ _]; eapply Forall_impl; try exact Hall;
      simpl; intros c [Hlen Hne]; assumption.
Qed.

(** The theorem at the text "ab\ncdefgh" and the limit 3. *)
Lemma splitMessage_chunks_within_limit_witness :
  exists chunks,
    splitMessage (js "ab" ++ [NL] ++ js "cdefgh") 3 = Some chunks
    /\ Forall (fun c => length c <= 3) chunks
    /\ (js "ab" ++ [NL] ++ js "cdefgh" <> [] ->
        3 < length (js "ab" ++ [NL] ++ js "cdefgh") ->
        Forall (fun c => c <> []) chunks).
Proof.
  apply (splitMessage_chunks_within_limit (js "ab" ++ [NL] ++ js "cdefgh") 3).
  lia.
Defined.


(** *** Joining the chunks again *)

Lemma split_not_nil (s : jsstring) : split s <> [].
Proof.
  induction s as [|c s IH]; simpl; [discriminate|].
  destruct (c =? NL)%N; [discriminate|].
  destruct (split s); [contradiction|discriminate].
Qed.

Lemma join_cons (sep p : jsstring) (ps : list jsstring) :
  ps <> [] -> join sep (p :: ps) = p ++ sep ++ join sep ps.
Proof. destruct ps; [contradiction|reflexivity]. Qed.

(** [s.split('\n').join('\n')] is [s]. *)
Lemma join_split (s : jsstring) : join [NL] (split s) = s.
Proof.
  induction s as [|c s IH]; [reflexivity|]. simpl.
  destruct (N.eqb_spec c NL) as [->|Hc].
  - rewrite join_cons by apply split_not_nil. simpl. now rewrite IH.
  - pose proof (split_not_nil s) as Hne.
    destruct (split s) as [|line rest]; [contradiction|].
    destruct rest as [|line' rest].
    + simpl in *. now rewrite IH.
    + rewrite join_cons in IH |- * by discriminate.
      simpl. f_equal. exact IH.
Qed.

Lemma concat_split (s : jsstring) : concat (split s) = withoutNL s.
Proof.
  induction s as [|c s IH]; [reflexivity|]. simpl.
  destruct (N.eqb_spec c NL) as [->|Hc]; simpl; [exact IH|].
  pose proof (split_not_nil s) as Hne.
  destruct (split s) as [|line rest]; [contradiction|].
  simpl in *. now rewrite IH.
Qed.

Lemma withoutNL_app (a b : jsstring) :
  withoutNL (a ++ b) = withoutNL a ++ withoutNL b.
Proof. apply filter_app. Qed.

Lemma withoutNL_idem (s : jsstring) : withoutNL (withoutNL s) = withoutNL s.
Proof.
  unfold withoutNL. induction s as [|c s IH]; [reflexivity|]. simpl.
  destruct (negb (c =? NL)%N) eqn:E; simpl; rewrite ?E, IH; reflexivity.
Qed.

Lemma concat_flush (st : list jsstring * jsstring) :
  concat (flush st) = concat (fst st) ++ snd st.
Proof.
  destruct st as [messages currentMessage]. simpl.
  destruct currentMessage; simpl.
  - now rewrite app_nil_r.
  - rewrite concat_app. simpl. now rewrite app_nil_r.
Qed.

Lemma flush_push (messages : list jsstring) (currentMessage : jsstring) :
  (if nonempty currentMessage then messages ++ [currentMessage] else messages)
  = flush (messages, currentMessage).
Proof. reflexivity. Qed.

(** A step of the loop adds the line's code units to what is held, and at
    most a newline besides. *)
Lemma splitLine_content (maxLength : nat) st line st' :
  1 <= maxLength ->
  splitLine maxLength st line = Some st' ->
  withoutNL (concat (fst st') ++ snd st')
    = withoutNL (concat (fst st) ++ snd st) ++ withoutNL line.
Proof.
  intros Hmax. destruct st as [messages currentMessage]. unfold splitLine.
  destruct (length currentMessage + length line + 1 <=? maxLength).
  - intros [= <-]. simpl. rewrite !withoutNL_app.
    destruct (nonempty currentMessage); simpl; rewrite ?app_nil_r;
      now rewrite <- ?app_assoc.
  - rewrite flush_push.
    destruct (maxLength <? length line).
    + intros E.
      destruct (hardSplit_spec maxLength Hmax (length line)
                  (flush (messages, currentMessage)) line (le_n _))
        as (pieces & rest & E' & Hc & _).
      rewrite E' in E. injection E as <-.
      cbn [fst snd]. rewrite ?flush_push.
      rewrite concat_app, concat_flush, <- app_assoc, Hc.
      now rewrite withoutNL_app.
    + intros [= <-]. cbn [fst snd]. rewrite ?flush_push.
      now rewrite concat_flush, withoutNL_app.
Qed.

Lemma forLines_content (maxLength : nat) lines :
  1 <= maxLength ->
  forall st st',
    forLines maxLength lines st = Some st' ->
    withoutNL (concat (fst st') ++ snd st')
      = withoutNL (concat (fst st) ++ snd st) ++ withoutNL (concat lines).
Proof.
  intros Hmax. induction lines as [|line rest IH]; intros st st'; simpl.
  - intros [= <-]. now rewrite app_nil_r.
  - destruct (splitLine maxLength st line) as [st1|] eqn:E; [|discriminate].
    intros E'. rewrite (IH _ _ E'), (splitLine_content _ _ _ _ Hmax E).
    now rewrite (withoutNL_app line), app_assoc.
Qed.

Lemma flush_nonempty (messages : list jsstring) (currentMessage : jsstring) :
  currentMessage <> [] ->
  flush (messages, currentMessage) = messages ++ [currentMessage].
Proof. destruct currentMessage; [contradiction|reflexivity]. Qed.

Lemma join_app (sep : jsstring) (a b : list jsstring) :
  a <> [] -> b <> [] -> join sep (a ++ b) = join sep a ++ sep ++ join sep b.
Proof.
  intros Ha Hb. induction a as [|x a IH]; [contradiction|].
  destruct a as [|y a].
  - cbn [app]. now rewrite join_cons.
  - change ((x :: y :: a) ++ b) with (x :: (y :: a) ++ b).
    rewrite !join_cons, IH by (try discriminate; now destruct a).
    now rewrite <- !app_assoc.
Qed.

Lemma join_first_row (row : jsstring) (run : list jsstring) :
  row <> [] -> join [NL] (row :: run) <> [].
Proof.
  intros Hrow. destruct run as [|r run].
  - exact Hrow.
  - rewrite join_cons by discriminate. destruct row; [contradiction|].
    discriminate.
Qed.

(** Joining the chunks of a layout is joining the rows it keeps. *)
Lemma laid_join (maxLength : nat) (blank : bool)
    (rows kept chunks : list jsstring) :
  laid maxLength blank rows kept chunks ->
  join [NL] chunks = join [NL] kept /\ (chunks = [] <-> kept = []).
Proof.
  induction 1 as [blank|rows kept chunks _ IH
                  |blank row run rows kept chunks Hrow _ [IH Hnil]].
  - split; [reflexivity|tauto].
  - exact IH.
  - split; [|split; discriminate].
    destruct chunks as [|c chunks].
    + rewrite (proj1 Hnil eq_refl), app_nil_r. reflexivity.
    + assert (Hkept : kept <> []).
      { intros E. apply Hnil in E. discriminate. }
      rewrite join_cons by discriminate.
      rewrite join_app by (try discriminate; assumption).
      now rewrite IH.
Qed.

(** The pieces of a hard split are chunks of their own. *)
Lemma laid_pieces (maxLength : nat) (ps rows kept chunks : list jsstring) :
  1 <= maxLength ->
  Forall (fun p => length p = maxLength) ps ->
  (forall blank, laid maxLength blank rows kept chunks) ->
  forall blank, laid maxLength blank (ps ++ rows) (ps ++ kept) (ps ++ chunks).
Proof.
  intros Hmax Hps Hrest.
  induction Hps as [|p ps Hp _ IH]; intros blank; [apply Hrest|].
  refine (@laid_chunk maxLength blank p [] (ps ++ rows) (ps ++ kept)
            (ps ++ chunks) _ (IH _)).
  intros E. subst p. simpl in Hp. lia.
Qed.

(** The loop lays the lines out, long ones cut, behind what it holds. *)
Lemma forLines_laid (maxLength : nat) (lines : list jsstring) :
  1 <= maxLength ->
  forall messages cur st',
    length cur <= maxLength ->
    forLines maxLength lines (messages, cur) = Some st' ->
    exists pieces kept chunks,
      Forall2 (cut maxLength) lines pieces
      /\ flush st' = messages ++ chunks
      /\ (cur = [] -> laid maxLength true (concat pieces) kept chunks)
      /\ (forall row run blank,
            row <> [] -> cur = join [NL] (row :: run) ->
            laid maxLength blank ((row :: run) ++ concat pieces)
              ((row :: run) ++ kept) chunks).
Proof.
  intros Hmax. induction lines as [|line rest IH];
    intros messages cur st' Hcur; cbn [forLines].
  - intros [= <-]. destruct cur as [|c cur].
    + exists [], [], []. split; [constructor|].
      split; [now rewrite app_nil_r|]. split.
      * intros _. constructor.
      * intros row run blank Hrow Ej. symmetry in Ej.
        now apply join_first_row in Ej.
    + exists [], [], [c :: cur]. split; [constructor|].
      split; [reflexivity|]. split; [discriminate|].
      intros row run blank Hrow ->. cbn [concat].
      apply laid_chunk; [exact Hrow|constructor].
  - destruct (splitLine maxLength (messages, cur) line) as [st1|] eqn:E;
      [|discriminate].
    intros Erest. unfold splitLine in E.
    destruct (Nat.leb_spec (length cur + length line + 1) maxLength)
      as [Hfit|Hover].
    + (* the line joins the current message *)
      injection E as <-.
      assert (Hcut : cut maxLength line [line]).
      { unfold cut. destruct (Nat.leb_spec (length line) maxLength);
          [reflexivity|lia]. }
      destruct cur as [|c cur].
      * cbn [nonempty app] in Erest.
        assert (Hlen : length line <= maxLength) by lia.
        destruct (IH _ _ _ Hlen Erest)
          as (pieces & kept & chunks & Hcuts & Hflush & Hnil & Hopen).
        destruct line as [|l line].
        -- exists ([[]] :: pieces), kept, chunks.
           split; [now constructor|]. split; [exact Hflush|]. split.
           ++ intros _. cbn [concat app]. apply laid_drop. now apply Hnil.
           ++ intros row run blank Hrow Ej. symmetry in Ej.
              now apply join_first_row in Ej.
        -- exists ([l :: line] :: pieces), ((l :: line) :: kept), chunks.
           split; [now constructor|]. split; [exact Hflush|]. split.
           ++ intros _. cbn [concat app].
              apply (Hopen (l :: line) [] true); [discriminate|reflexivity].
           ++ intros row run blank Hrow Ej. symmetry in Ej.
              now apply join_first_row in Ej.
      * cbn [nonempty] in Erest.
        assert (Hlen : length ((c :: cur) ++ [NL] ++ line) <= maxLength).
        { rewrite !length_app. cbn [length] in *. lia. }
        destruct (IH _ _ _ Hlen Erest)
          as (pieces & kept & chunks & Hcuts & Hflush & _ & Hopen).
        exists ([line] :: pieces), (line :: kept), chunks.
        split; [now constructor|]. split; [exact Hflush|].
        split; [discriminate|].
        intros row run blank Hrow Ecur.
        assert (Ejoin : (c :: cur) ++ [NL] ++ line
                        = join [NL] (row :: run ++ [line])).
        { rewrite Ecur.
          change (row :: run ++ [line]) with ((row :: run) ++ [line]).
          now rewrite join_app by discriminate. }
        specialize (Hopen row (run ++ [line]) blank Hrow Ejoin).
        assert (Ea : forall X : list jsstring,
                   (row :: run ++ [line]) ++ X = (row :: run) ++ line :: X).
        { intros X. cbn [app]. now rewrite <- app_assoc. }
        rewrite !Ea in Hopen. cbn [concat app] in Hopen |- *. exact Hopen.
    + (* the current message is closed *)
      rewrite flush_push in E.
      destruct (Nat.ltb_spec maxLength (length line)) as [Hlong|Hshort].
      * (* and the line is hard-split *)
        destruct (hardSplit_spec maxLength Hmax (length line)
                    (flush (messages, cur)) line (le_n _))
          as (ps & last & E' & Hc & Hp & Hr & Hne & _).
        pose proof (eq_trans (eq_sym E') E) as Est. injection Est as <-.
        assert (Hline : line <> []).
        { intros ->. simpl in Hlong. lia. }
        specialize (Hne Hline).
        destruct (IH _ _ _ Hr Erest)
          as (pieces & kept & chunks & Hcuts & Hflush & _ & Hopen).
        assert (Hcut : cut maxLength line (ps ++ [last])).
        { unfold cut. destruct (Nat.leb_spec (length line) maxLength);
            [lia|]. split.
          - rewrite concat_app. cbn [concat]. now rewrite app_nil_r.
          - apply Forall_app. split.
            + eapply Forall_impl; [|exact Hp]. cbn beta. intros p' Hlen.
              split; [|lia]. intros ->. simpl in Hlen. lia.
            + constructor; [|constructor]. split; assumption. }
        assert (Hafter : forall blank,
                   laid maxLength blank ((ps ++ [last]) ++ concat pieces)
                     ((ps ++ [last]) ++ kept) (ps ++ chunks)).
        { intros blank. rewrite <- !app_assoc.
          apply laid_pieces; [exact Hmax|exact Hp|].
          intros blank'. apply (Hopen last [] blank' Hne). reflexivity. }
        destruct cur as [|c cur].
        -- exists ((ps ++ [last]) :: pieces), ((ps ++ [last]) ++ kept),
             (ps ++ chunks).
           split; [now constructor|]. split.
           { rewrite Hflush. cbn [flush nonempty]. now rewrite <- app_assoc. }
           split.
           ++ intros _. cbn [concat]. apply Hafter.
           ++ intros row run blank Hrow Ej. symmetry in Ej.
              now apply join_first_row in Ej.
        -- exists ((ps ++ [last]) :: pieces), ((ps ++ [last]) ++ kept),
             ((c :: cur) :: ps ++ chunks).
           split; [now constructor|]. split.
           { rewrite Hflush. cbn [flush nonempty].
             now rewrite <- !app_assoc. }
           split; [discriminate|].
           intros row run blank Hrow ->. cbn [concat].
           apply laid_chunk; [exact Hrow|]. apply Hafter.
      * (* and the line opens the next one *)
        injection E as <-.
        assert (Hcut : cut maxLength line [line]).
        { unfold cut. destruct (Nat.leb_spec (length line) maxLength);
            [reflexivity|lia]. }
        destruct (IH _ _ _ Hshort Erest)
          as (pieces & kept & chunks & Hcuts & Hflush & Hnil & Hopen).
        destruct cur as [|c cur].
        -- destruct line as [|l line]; [simpl in Hover; lia|].
           exists ([l :: line] :: pieces), ((l :: line) :: kept), chunks.
           split; [now constructor|]. split; [exact Hflush|]. split.
           ++ intros _. cbn [concat app].
              apply (Hopen (l :: line) [] true); [discriminate|reflexivity].
           ++ intros row run blank Hrow Ej. symmetry in Ej.
              now apply join_first_row in Ej.
        -- destruct line as [|l line].
           ++ (* an empty line behind a full message is dropped *)
              exists ([[]] :: pieces), kept, ((c :: cur) :: chunks).
              split; [now constructor|]. split.
              { rewrite Hflush. cbn [flush nonempty].
                now rewrite <- app_assoc. }
              split; [discriminate|].
              intros row run blank Hrow Ecur. cbn [concat app].
              rewrite Ecur. apply laid_chunk; [exact Hrow|].
              match goal with
              | |- laid _ ?full _ _ _ =>
                  replace full with true;
                  [apply laid_drop; now apply Hnil|]
              end.
              symmetry. apply Nat.eqb_eq.
              transitivity (length (c :: cur));
                [f_equal; symmetry; exact Ecur|].
              cbn [length] in *. lia.
           ++ exists ([l :: line] :: pieces), ((l :: line) :: kept),
                ((c :: cur) :: chunks).
              split; [now constructor|]. split.
              { rewrite Hflush. cbn [flush nonempty].
                now rewrite <- app_assoc. }
              split; [discriminate|].
              intros row run blank Hrow Ecur. cbn [concat app].
              rewrite Ecur. apply laid_chunk; [exact Hrow|].
              apply (Hopen (l :: line) []); [discriminate|reflexivity].
Qed.

Lemma cut_short_lines (maxLength : nat) (lines : list jsstring)
    (pieces : list (list jsstring)) :
  Forall2 (cut maxLength) lines pieces ->
  Forall (fun line => length line <= maxLength) lines ->
  concat pieces = lines.
Proof.
  induction 1 as [|line ps lines pieces Hcut _ IH]; intros Hshort;
    [reflexivity|].
  inversion Hshort as [|? ? Hline Hrest]; subst.
  unfold cut in Hcut. apply Nat.leb_le in Hline. rewrite Hline in Hcut.
  subst ps. cbn [concat app]. now rewrite IH.
Qed.

(** C9, counterexample: "abc\n\ndef" has no line longer than 3, so nothing
    is hard-split, yet at the limit 3 the chunks are "abc" and "def" and
    joining them with a newline gives "abc\ndef": the blank line is lost. *)
Lemma splitMessage_rejoin_loses_blank_line :
  3 < length (js "abc" ++ [NL; NL] ++ js "def")
  /\ Forall (fun line => length line <= 3)
       (split (js "abc" ++ [NL; NL] ++ js "def"))
  /\ splitMessage (js "abc" ++ [NL; NL] ++ js "def") 3
     = Some [js "abc"; js "def"]
  /\ join [NL] [js "abc"; js "def"] <> js "abc" ++ [NL; NL] ++ js "def".
Proof.
  split; [vm_compute; lia|]. split.
  - vm_compute. repeat constructor.
  - split; [reflexivity|]. vm_compute. discriminate.
Qed.

(** C9, amended: a text of at most [maxLen] code units comes back as the
    single chunk [text].  For a longer text and [maxLen >= 1], joining the
    chunks with a newline gives the lines of the text joined by newlines,
    with two deviations only: a line longer than [maxLen] is replaced by
    its pieces, and an empty line is dropped when it stands at the very
    beginning of the text or directly behind a chunk of exactly [maxLen]
    code units (and so are the empty lines that follow it at once).  Every
    other line, empty or not, is in the chunks with its newline: when no
    empty line is dropped the chunks join to the text with its long lines
    cut, and to the text itself when no line is longer than [maxLen].  In
    every case the code units other than newlines are those of the text, in
    order. *)
Theorem splitMessage_rejoin (text : jsstring) (maxLen : nat) :
  (length text <= maxLen -> splitMessage text maxLen = Some [text])
  /\ (1 <= maxLen -> maxLen < length text ->
      exists chunks pieces kept,
        splitMessage text maxLen = Some chunks
        /\ Forall2 (cut maxLen) (split text) pieces
        /\ laid maxLen true (concat pieces) kept chunks
        /\ join [NL] chunks = join [NL] kept
        /\ (kept = concat pieces ->
            Forall (fun line => length line <= maxLen) (split text) ->
            join [NL] chunks = text)
        /\ withoutNL (concat chunks) = withoutNL text).
Proof.
  unfold splitMessage. split.
  - intros Hfit. apply Nat.leb_le in Hfit. now rewrite Hfit.
  - intros Hmax Hlong.
    destruct (Nat.leb_spec (length text) maxLen) as [Hfit|_]; [lia|].
    destruct (forLines_ok maxLen (split text) Hmax ([], []))
      as (st & E & _).
    { split; simpl; [constructor | lia]. }
    rewrite E. cbn [option_map].
    destruct (forLines_laid maxLen (split text) Hmax [] [] st
                ltac:(simpl; lia) E)
      as (pieces & kept & chunks & Hcuts & Hflush & Hlaid & _).
    cbn [app] in Hflush. specialize (Hlaid eq_refl).
    exists chunks, pieces, kept. split; [now rewrite Hflush|].
    split; [exact Hcuts|]. split; [exact Hlaid|].
    destruct (laid_join _ _ _ _ _ Hlaid) as [Hjoin _].
    split; [exact Hjoin|]. split.
    + intros Ekept Hshort. rewrite Hjoin, Ekept.
      rewrite (cut_short_lines _ _ _ Hcuts Hshort). apply join_split.
    + rewrite <- Hflush, concat_flush, (forLines_content _ _ Hmax _ _ E).
      simpl. now rewrite concat_split, withoutNL_idem.
Qed.

(** The theorem at "short" with the limit 100, and at "ab\n\ncdefgh\n\nij"
    with the limit 3: the first empty line stays behind "ab", the second one
    is dropped behind the full chunk "fgh". *)
Lemma splitMessage_rejoin_witness :
  splitMessage (js "short") 100 = Some [js "short"]
  /\ exists chunks pieces kept,
       splitMessage
         (js "ab" ++ [NL; NL] ++ js "cdefgh" ++ [NL; NL] ++ js "ij") 3
         = Some chunks
       /\ Forall2 (cut 3)
            (split (js "ab" ++ [NL; NL] ++ js "cdefgh" ++ [NL; NL]
                      ++ js "ij"))
            pieces
       /\ laid 3 true (concat pieces) kept chunks
       /\ join [NL] chunks = join [NL] kept.
Proof.
  split.
  - apply (proj1 (splitMessage_rejoin (js "short") 100)). vm_compute. lia.
  - destruct (proj2 (splitMessage_rejoin
                       (js "ab" ++ [NL; NL] ++ js "cdefgh" ++ [NL; NL]
                          ++ js "ij") 3))
      as (chunks & pieces & kept & E & Hcuts & Hlaid & Hjoin & _);
      [lia | vm_compute; lia |].
    exists chunks, pieces, kept. repeat split; assumption.
Defined.

(** The chunks of the witness: "ab\n" keeps the empty line that follows
    "ab", and none stands for the one that follows "fgh". *)
Example splitMessage_blank_lines :
  splitMessage (js "ab" ++ [NL; NL] ++ js "cdefgh" ++ [NL; NL] ++ js "ij") 3
  = Some [js "ab" ++ [NL]; js "cde"; js "fgh"; js "ij"].
Proof. reflexivity. Qed.

(** The chunker on the texts of the specification's test. *)
Example splitMessage_short :
  splitMessage (js "short") 100 = Some [js "short"].
Proof. reflexivity. Qed.

Example splitMessage_5000_lines :
  let text := repeat_str (js "a" ++ [NL]) 5000 in
  exists chunks,
    splitMessage text 100 = Some chunks
    /\ forallb (fun c => length c <=? 100) chunks = true
    /\ jsstring_eqb (join [NL] chunks) text = true.
Proof.
  cbv zeta. eexists. split; [vm_compute; reflexivity|].
  split; vm_compute; reflexivity.
Qed.

End Chunker.

(** ** The keyword prefilter *)

Section Keywords.
Import KeywordFilter.
Context `{CaseMapping}.

Lemma startsWith_spec (s p : jsstring) :
  startsWith s p = true <-> exists post, s = p ++ post.
Proof.
  revert s. induction p as [|a p IH]; intros s; simpl.
  - split; [intros _; now exists s | reflexivity].
  - destruct s as [|b s].
    + split; [discriminate|]. intros [post E]. discriminate.
    + rewrite andb_true_iff, N.eqb_eq, IH. split.
      * intros [-> [post ->]]. eauto.
      * intros [post E]. injection E as -> ->. eauto.
Qed.

Lemma includes_spec (s p : jsstring) :
  includes s p = true <-> isSubstring p s.
Proof.
  unfold isSubstring. induction s as [|b s IH]; simpl.
  - rewrite orb_false_r, startsWith_spec. split.
    + intros [post E]. exists [], post. exact E.
    + intros (pre & post & E). destruct pre; [eauto|discriminate].
  - rewrite orb_true_iff, startsWith_spec, IH. split.
    + intros [[post E]|(pre & post & E)].
      * exists [], post. exact E.
      * exists (b :: pre), post. simpl. now rewrite E.
    + intros (pre & post & E). destruct pre as [|c pre].
      * left. eauto.
      * right. injection E as -> E. eauto.
Qed.

Lemma containsKeywords_spec (keywords : list jsstring) (item : NewsItem) :
  containsKeywords (combinedText (title item) (description item)) keywords
    = true
  <-> categoryMatches keywords (title item ++ js " " ++ description item).
Proof.
  unfold containsKeywords, categoryMatches.
  assert (Hne : nonempty (combinedText (title item) (description item)) = true).
  { unfold combinedText. destruct (title item); reflexivity. }
  rewrite Hne. simpl. rewrite existsb_exists.
  split; intros (k & Hin & Hk); exists k; split; auto;
    now apply includes_spec.
Qed.

Lemma categoryCount_spec (title description : jsstring) :
  let m := countCategoryMatches title description in
  2 <= categoryCount m
  <-> atLeastTwo (crypto m = true) (fed m = true) (macro m = true).
Proof.
  unfold countCategoryMatches, atLeastTwo. simpl.
  destruct (containsKeywords _ KEYWORDS_crypto),
           (containsKeywords _ KEYWORDS_fed),
           (containsKeywords _ KEYWORDS_macro); simpl;
    intuition (try discriminate; try lia).
Qed.

Lemma filterByKeywords_filter (news : list NewsItem) :
  filterByKeywords news
  = map (fun item => set_keywordMatches item
                       (countCategoryMatches (title item) (description item)))
      (filter (fun item => 2 <=? categoryCount
                 (countCategoryMatches (title item) (description item)))
              news).
Proof.
  induction news as [|item rest IH]; [reflexivity|].
  cbn [filterByKeywords filter].
  destruct (2 <=? categoryCount
              (countCategoryMatches (title item) (description item)));
    cbn [map]; now rewrite IH.
Qed.

Lemma retained_spec (item : NewsItem) :
  (2 <=? categoryCount (countCategoryMatches (title item) (description item)))
    = true
  <-> atLeastTwo
        (categoryMatches KEYWORDS_crypto
           (title item ++ js " " ++ description item))
        (categoryMatches KEYWORDS_fed
           (title item ++ js " " ++ description item))
        (categoryMatches KEYWORDS_macro
           (title item ++ js " " ++ description item)).
Proof.
  rewrite Nat.leb_le, categoryCount_spec.
  unfold countCategoryMatches, atLeastTwo. simpl.
  rewrite !containsKeywords_spec. reflexivity.
Qed.

(** C6, amended: [filterByKeywords] keeps an item of the list if and only if
    at least two of the three categories crypto, fed and macro match it, a
    category matching when one of its keywords, lower-cased, occurs in the
    lower-cased text made of the title, one space and the description (not
    in their bare concatenation); an item that is kept is returned as it
    was, with [keywordMatches] set; and every item returned is an item of
    the list, kept for that reason, whose [keywordMatches] holds the three
    booleans that tell which categories match and their count. *)
Theorem filterByKeywords_two_of_three (news : list NewsItem) :
  (forall item, In item news ->
     ((exists m,
         In {| title := title item; description := description item;
               url := url item; publishedAt := publishedAt item;
               source := source item; keywordMatches := Some m;
               aiScore := aiScore item; aiReason := aiReason item;
               impact := impact item |}
            (filterByKeywords news))
      <-> atLeastTwo
            (categoryMatches KEYWORDS_crypto
               (title item ++ js " " ++ description item))
            (categoryMatches KEYWORDS_fed
               (title item ++ js " " ++ description item))
            (categoryMatches KEYWORDS_macro
               (title item ++ js " " ++ description item))))
  /\ (forall item', In item' (filterByKeywords news) ->
        exists item m,
          In item news
          /\ item' = {| title := title item; description := description item;
                        url := url item; publishedAt := publishedAt item;
                        source := source item; keywordMatches := Some m;
                        aiScore := aiScore item; aiReason := aiReason item;
                        impact := impact item |}
          /\ atLeastTwo
               (categoryMatches KEYWORDS_crypto
                  (title item ++ js " " ++ description item))
               (categoryMatches KEYWORDS_fed
                  (title item ++ js " " ++ description item))
               (categoryMatches KEYWORDS_macro
                  (title item ++ js " " ++ description item))
          /\ (crypto m = true
              <-> categoryMatches KEYWORDS_crypto
                    (title item ++ js " " ++ description item))
          /\ (fed m = true
              <-> categoryMatches KEYWORDS_fed
                    (title item ++ js " " ++ description item))
          /\ (macro m = true
              <-> categoryMatches KEYWORDS_macro
                    (title item ++ js " " ++ description item))
          /\ categoryCount m
             = length (filter (fun b : bool => b)
                         [crypto m; fed m; macro m])).
Proof.
  rewrite filterByKeywords_filter. split.
  - intros item Hin. rewrite <- retained_spec. split.
    + intros (m & Hm). apply in_map_iff in Hm as (item0 & E & H0).
      apply filter_In in H0 as [_ H0].
      assert (Et : title item0 = title item)
        by exact (f_equal title E).
      assert (Ed : description item0 = description item)
        by exact (f_equal description E).
      now rewrite <- Et, <- Ed.
    + intros Hkeep.
      exists (countCategoryMatches (title item) (description item)).
      apply in_map_iff. exists item. split; [reflexivity|].
      apply filter_In. now split.
  - intros item' Hin. apply in_map_iff in Hin as (item & <- & Hin).
    apply filter_In in Hin as [Hin Hkeep].
    exists item, (countCategoryMatches (title item) (description item)).
    split; [assumption|]. split; [reflexivity|].
    split; [now apply retained_spec|].
    unfold countCategoryMatches. simpl.
    rewrite !containsKeywords_spec. repeat split; auto.
Qed.

End Keywords.

(** The theorem at a list of four items: the one about Bitcoin and the Fed
    is returned with its matches, so two categories match its title, a
    space and its description. *)
Lemma filterByKeywords_two_of_three_witness :
  atLeastTwo
    (categoryMatches (H := asciiCase) KeywordFilter.KEYWORDS_crypto
       (title ratesItem ++ js " " ++ description ratesItem))
    (categoryMatches (H := asciiCase) KeywordFilter.KEYWORDS_fed
       (title ratesItem ++ js " " ++ description ratesItem))
    (categoryMatches (H := asciiCase) KeywordFilter.KEYWORDS_macro
       (title ratesItem ++ js " " ++ description ratesItem)).
Proof.
  refine (proj1 (proj1 (@filterByKeywords_two_of_three asciiCase
                          [weatherItem; rallyItem; ratesItem; macroItem])
                       ratesItem _) _).
  - right. right. left. reflexivity.
  - exists {| crypto := true; fed := true; macro := false;
              categoryCount := 2 |}.
    vm_compute. left. reflexivity.
Defined.

(** C6, counterexample: the title "fe" and the description "d bitcoin".
    Their concatenation "fed bitcoin" holds the keyword "bitcoin" of the
    category crypto and the keyword "fed" of the category fed, so two
    categories match it; but the code searches "fe d bitcoin", in which no
    keyword of fed or macro occurs, and drops the item. *)
Lemma filterByKeywords_not_the_concatenation :
  atLeastTwo
    (categoryMatches (H := asciiCase) KeywordFilter.KEYWORDS_crypto
       (title splitFedItem ++ description splitFedItem))
    (categoryMatches (H := asciiCase) KeywordFilter.KEYWORDS_fed
       (title splitFedItem ++ description splitFedItem))
    (categoryMatches (H := asciiCase) KeywordFilter.KEYWORDS_macro
       (title splitFedItem ++ description splitFedItem))
  /\ KeywordFilter.filterByKeywords (H := asciiCase) [splitFedItem] = []
  /\ KeywordFilter.countCategoryMatches (H := asciiCase)
       (title splitFedItem) (description splitFedItem)
     = {| crypto := true; fed := false; macro := false;
          categoryCount := 1 |}.
Proof.
  split; [|split; vm_compute; reflexivity].
  left. split.
  - exists (js "bitcoin"). split.
    + unfold KeywordFilter.KEYWORDS_crypto. cbn [map].
      right. right. left. reflexivity.
    + exists (js "fed "), []. reflexivity.
  - exists (js "fed"). split.
    + unfold KeywordFilter.KEYWORDS_fed. cbn [map]. right. left. reflexivity.
    + exists [], (js " bitcoin"). reflexivity.
Qed.

(** Items that match 0, 1, 2 and 3 categories: the last two are kept. *)
Example filterByKeywords_0_1_2_3 :
  map (fun item =>
         categoryCount
           (KeywordFilter.countCategoryMatches (H := asciiCase)
              (title item) (description item)))
      [weatherItem; rallyItem; ratesItem; macroItem]
  = [0; 1; 2; 3]
  /\ map url
       (KeywordFilter.filterByKeywords (H := asciiCase)
          [weatherItem; rallyItem; ratesItem; macroItem])
     = [url ratesItem; url macroItem].
Proof. split; vm_compute; reflexivity. Qed.

(** ** Numbers *)

Section Numbers.

Lemma ltb_Fin (x y : Q) : ltb (Fin x) (Fin y) = true <-> (x < y)%Q.
Proof.
  simpl. rewrite negb_true_iff. split.
  - intros E. apply Qnot_le_lt. intro Hle.
    apply Qle_bool_iff in Hle. congruence.
  - intros Hlt. destruct (Qle_bool y x) eqn:E; [|reflexivity].
    apply Qle_bool_iff in E. exfalso. now apply (Qlt_not_le x y).
Qed.

Lemma ltb_Fin_false (x y : Q) : ltb (Fin x) (Fin y) = false <-> (y <= x)%Q.
Proof.
  simpl. rewrite negb_false_iff. apply Qle_bool_iff.
Qed.

Lemma ltb_asym (a b : number) : ltb a b = true -> ltb b a = false.
Proof.
  destruct a, b; simpl; try congruence.
  intros E. apply ltb_Fin in E. apply ltb_Fin_false. now apply Qlt_le_weak.
Qed.

(** On numbers other than [NaN], "not less" is transitive. *)
Lemma ltb_false_trans (a b c : number) :
  isNaN b = false ->
  ltb a b = false -> ltb b c = false -> ltb a c = false.
Proof.
  destruct a as [| | |x], b as [| | |y], c as [| | |z]; simpl;
    try congruence.
  intros _ Hab Hbc.
  apply negb_false_iff, Qle_bool_iff in Hab, Hbc.
  apply negb_false_iff, Qle_bool_iff. now apply Qle_trans with y.
Qed.

Lemma ltb_eqb_compat (a a' b b' : number) :
  eqb a a' = true -> eqb b b' = true -> ltb a b = ltb a' b'.
Proof.
  destruct a as [| | |x], a' as [| | |x'], b as [| | |y], b' as [| | |y'];
    simpl; try congruence; try reflexivity.
  intros Hx Hy. apply Qeq_bool_iff in Hx, Hy. f_equal.
  destruct (Qle_bool y x) eqn:E, (Qle_bool y' x') eqn:E'; try reflexivity.
  - apply Qle_bool_iff in E. rewrite Hx, Hy in E.
    apply Qle_bool_iff in E. congruence.
  - apply Qle_bool_iff in E'. rewrite <- Hx, <- Hy in E'.
    apply Qle_bool_iff in E'. congruence.
Qed.

Lemma eqb_not_NaN (a b : number) : eqb a b = true -> isNaN a = false.
Proof. destruct a, b; simpl; congruence. Qed.

Lemma eqb_sym (a b : number) : eqb a b = eqb b a.
Proof.
  destruct a as [| | |x], b as [| | |y]; simpl; try reflexivity.
  destruct (Qeq_bool x y) eqn:E, (Qeq_bool y x) eqn:E'; try reflexivity.
  - apply Qeq_bool_iff in E. symmetry in E.
    apply Qeq_bool_iff in E. congruence.
  - apply Qeq_bool_iff in E'. symmetry in E'.
    apply Qeq_bool_iff in E'. congruence.
Qed.

Lemma eqb_trans (a b c : number) :
  eqb a b = true -> eqb b c = true -> eqb a c = true.
Proof.
  destruct a as [| | |x], b as [| | |y], c as [| | |z]; simpl; try congruence.
  intros H1 H2. apply Qeq_bool_iff in H1, H2. apply Qeq_bool_iff.
  now rewrite H1.
Qed.

Lemma eqb_ltb_false (a b : number) : eqb a b = true -> ltb a b = false.
Proof.
  destruct a as [| | |x], b as [| | |y]; simpl; try congruence.
  intros E. apply Qeq_bool_iff in E. apply negb_false_iff, Qle_bool_iff.
  rewrite E. apply Qle_refl.
Qed.

(** The sign of a difference: [b - a > 0] exactly when [a < b]. *)
Lemma sub_positive (a b : number) :
  ltb (Fin 0) (sub b a) = ltb a b.
Proof.
  destruct a as [| | |x], b as [| | |y]; try reflexivity.
  unfold sub. destruct (ltb (Fin x) (Fin y)) eqn:E.
  - apply ltb_Fin in E. apply ltb_Fin.
    apply (Qplus_lt_l _ _ x). ring_simplify. exact E.
  - apply ltb_Fin_false in E. apply ltb_Fin_false.
    apply (Qplus_le_l _ _ x). ring_simplify. exact E.
Qed.

End Numbers.

(** ** [Array.prototype.sort] *)

Section SortFacts.
Variable A : Type.
Variable cmp : A -> A -> number.

Lemma insert_perm (x : A) (l : list A) : Permutation (x :: l) (insert cmp x l).
Proof.
  induction l as [|y l IH]; cbn [insert]; [reflexivity|].
  destruct (ltb (Fin 0) (cmp x y)); [|reflexivity].
  rewrite perm_swap. now apply perm_skip.
Qed.

Lemma sort_perm (l : list A) : Permutation l (sort cmp l).
Proof.
  induction l as [|x l IH]; cbn [sort]; [reflexivity|].
  rewrite <- insert_perm. now apply perm_skip.
Qed.

(** Elements that the comparator does not put one after the other keep
    their order through the sort. *)
Lemma filter_insert (p : A -> bool) (x : A) (l : list A) :
  (forall y, p x = true -> p y = true -> ltb (Fin 0) (cmp x y) = false) ->
  filter p (insert cmp x l) = filter p (x :: l).
Proof.
  intros Hp. induction l as [|y l IH]; [reflexivity|].
  cbn [insert]. destruct (ltb (Fin 0) (cmp x y)) eqn:E; [|reflexivity].
  cbn [filter] in *. rewrite IH.
  destruct (p x) eqn:Ex, (p y) eqn:Ey; try reflexivity.
  rewrite (Hp y eq_refl Ey) in E. discriminate.
Qed.

Lemma filter_sort (p : A -> bool) (l : list A) :
  (forall a b, p a = true -> p b = true -> ltb (Fin 0) (cmp a b) = false) ->
  filter p (sort cmp l) = filter p l.
Proof.
  intros Hp. induction l as [|x l IH]; [reflexivity|].
  cbn [sort]. rewrite filter_insert by (intros y; apply Hp).
  cbn [filter]. now rewrite IH.
Qed.

(** With a comparator that is the sign of a difference of keys, none of
    them [NaN], the sorted array goes down along the keys. *)
Variable key : A -> number.
Hypothesis cmp_key : forall a b, cmp a b = sub (key b) (key a).
Hypothesis key_number : forall a, isNaN (key a) = false.

Lemma insert_sorted (x : A) (l : list A) :
  StronglySorted (fun a b => ltb (key a) (key b) = false) l ->
  StronglySorted (fun a b => ltb (key a) (key b) = false) (insert cmp x l).
Proof.
  induction 1 as [|y l Hl IH Hy]; cbn [insert].
  - constructor; constructor.
  - rewrite cmp_key, sub_positive.
    destruct (ltb (key x) (key y)) eqn:E.
    + constructor; [exact IH|].
      rewrite <- (insert_perm x l). constructor; [|exact Hy].
      now apply ltb_asym.
    + constructor; [now constructor|].
      constructor; [exact E|].
      eapply Forall_impl; [|exact Hy]. simpl. intros z Hz.
      eapply ltb_false_trans; eauto.
Qed.

Lemma sort_sorted (l : list A) :
  StronglySorted (fun a b => ltb (key a) (key b) = false) (sort cmp l).
Proof.
  induction l as [|x l IH]; cbn [sort]; [constructor|].
  now apply insert_sorted.
Qed.

End SortFacts.

Lemma StronglySorted_impl (A : Type) (R R' : A -> A -> Prop) (l : list A) :
  (forall a b, R a b -> R' a b) ->
  StronglySorted R l -> StronglySorted R' l.
Proof.
  intros HR. induction 1 as [|x l Hl IH Hx]; constructor; auto.
  eapply Forall_impl; [|exact Hx]. auto.
Qed.

(** ** The impact scoring engine *)

Section Impact.
Import ImpactScorer.
Context `{NumberParsing}.

(** A field that is missing, [null], [false], [0], [NaN] or the empty string
    becomes [0]. *)
Lemma clamp_falsy (hi : Q) (v : jsval) :
  (0 <= hi)%Q -> truthy v = false -> clamp hi v = Fin 0.
Proof.
  intros Hhi Hv. unfold clamp, or. rewrite Hv. cbn [ToNumber].
  unfold Math_min. cbn [isNaN orb].
  destruct (ltb (Fin 0) (Fin hi)) eqn:E; unfold Math_max; cbn [isNaN orb].
  - reflexivity.
  - now rewrite E.
Qed.

(** A field whose number is not [NaN] ends within [0, hi]; otherwise the
    outcome is [NaN]. *)
Lemma clamp_range (hi : Q) (v : jsval) :
  (0 <= hi)%Q ->
  (ToNumber (or v (VNum (Fin 0))) = NaN /\ clamp hi v = NaN)
  \/ within 0 hi (clamp hi v).
Proof.
  intros Hhi. unfold clamp.
  destruct (ToNumber (or v (VNum (Fin 0)))) as [| | |q] eqn:Ex.
  - left. split; reflexivity.
  - right. unfold Math_min. cbn [isNaN orb ltb].
    unfold Math_max. cbn [isNaN orb].
    destruct (ltb (Fin 0) (Fin hi)) eqn:E.
    + exists hi. repeat split; [assumption|apply Qle_refl].
    + exists 0%Q. repeat split; [apply Qle_refl|assumption].
  - right. exists 0%Q. repeat split; [apply Qle_refl|assumption].
  - right. unfold Math_min. cbn [isNaN orb].
    destruct (ltb (Fin q) (Fin hi)) eqn:Eq; unfold Math_max; cbn [isNaN orb].
    + destruct (ltb (Fin 0) (Fin q)) eqn:E0.
      * exists q. repeat split.
        -- apply Qlt_le_weak. now apply ltb_Fin.
        -- apply Qlt_le_weak. now apply ltb_Fin.
      * exists 0%Q. repeat split; [apply Qle_refl|assumption].
    + destruct (ltb (Fin 0) (Fin hi)) eqn:E0.
      * exists hi. repeat split; [assumption|apply Qle_refl].
      * exists 0%Q. repeat split; [apply Qle_refl|assumption].
Qed.

(** A number of the oracle, whatever it is, ends within [0, hi]. *)
Lemma clamp_number (hi : Q) (x : number) :
  (0 <= hi)%Q -> within 0 hi (clamp hi (VNum x)).
Proof.
  intros Hhi. destruct (truthy (VNum x)) eqn:Et.
  - destruct (clamp_range hi (VNum x) Hhi) as [[E _]|Hin]; [|exact Hin].
    unfold or in E. rewrite Et in E. cbn [ToNumber] in E. subst x.
    discriminate.
  - rewrite (clamp_falsy hi _ Hhi Et).
    exists 0%Q. repeat split; [apply Qle_refl|assumption].
Qed.

(** A string that is not a numeric literal, or a nested object, goes through
    the validation as [NaN]. *)
Lemma clamp_not_a_number (hi : Q) (v : jsval) :
  truthy v = true -> ToNumber v = NaN -> clamp hi v = NaN.
Proof.
  intros Ht En. unfold clamp, or. rewrite Ht, En. reflexivity.
Qed.

(** The total is the reported one, clamped, whatever the sub-scores are. *)
Lemma validate_totalScore (result : object) :
  totalScore (validate result) = clamp 100 (get result "totalScore").
Proof. reflexivity. Qed.

(** C7: when the answer of the oracle cannot be parsed as JSON, [scoreImpact]
    returns the four sub-scores 10, the total 40, the level '中等影响'
    (medium) and the direction '中性' (neutral); when the call fails it
    returns the same scores, level and direction, with the message of the
    error in [reasoning]; the loop of [scoreAllNewsImpact] attaches them. *)
Theorem scoreImpact_defaults :
  (forall parseError scoreMatch,
     scoreImpact (Answered (Throw parseError) scoreMatch)
     = Normal {| policyStrength := Fin 10;
                 expectationGap := Fin 10;
                 timeUrgency := Fin 10;
                 cryptoRelevance := Fin 10;
                 totalScore := Fin 40;
                 level := VStr LEVEL_MEDIUM;
                 direction := VStr DIRECTION_NEUTRAL;
                 reasoning := VStr PARSE_FAILED |})
  /\ (forall message,
        scoreImpact (Failed message)
        = Normal {| policyStrength := Fin 10;
                    expectationGap := Fin 10;
                    timeUrgency := Fin 10;
                    cryptoRelevance := Fin 10;
                    totalScore := Fin 40;
                    level := VStr LEVEL_MEDIUM;
                    direction := VStr DIRECTION_NEUTRAL;
                    reasoning := VStr (SCORING_ERROR ++ message) |})
  /\ (forall item message,
        impact (scoreItem (item, Failed message))
        = Some {| policyStrength := Fin 10;
                  expectationGap := Fin 10;
                  timeUrgency := Fin 10;
                  cryptoRelevance := Fin 10;
                  totalScore := Fin 40;
                  level := VStr LEVEL_MEDIUM;
                  direction := VStr DIRECTION_NEUTRAL;
                  reasoning := VStr (SCORING_ERROR ++ message) |}).
Proof.
  split; [|split]; intros; reflexivity.
Qed.

(** *** The order of the scored news *)

Lemma sortKey_number (item : NewsItem) : isNaN (sortKey item) = false.
Proof.
  unfold sortKey. destruct (impact item) as [i|]; [|reflexivity].
  destruct (totalScore i) as [| | |q]; try reflexivity.
  cbn [truthy]. destruct (negb (Qeq_bool q 0)); reflexivity.
Qed.

(** The sort key is the total, but for a total [NaN]. *)
Lemma sortKey_total (item : NewsItem) :
  isNaN (total item) = false -> eqb (total item) (sortKey item) = true.
Proof.
  unfold total, sortKey. destruct (impact item) as [i|]; [|discriminate].
  destruct (totalScore i) as [| | |q]; try discriminate; try reflexivity.
  intros _. cbn [truthy]. destruct (Qeq_bool q 0) eqn:E; cbn [negb eqb].
  - exact E.
  - apply Qeq_bool_iff. reflexivity.
Qed.

Lemma ltb_not_NaN (a b : number) :
  ltb a b = true -> isNaN a = false /\ isNaN b = false.
Proof. destruct a, b; simpl; try congruence; auto. Qed.

Lemma total_ltb_sortKey (a b : NewsItem) :
  ltb (sortKey a) (sortKey b) = false -> ltb (total a) (total b) = false.
Proof.
  intros Hk. destruct (ltb (total a) (total b)) eqn:E; [|reflexivity].
  destruct (ltb_not_NaN _ _ E) as [Ha Hb].
  rewrite (ltb_eqb_compat _ _ _ _ (sortKey_total a Ha) (sortKey_total b Hb))
    in E.
  congruence.
Qed.


(** Items whose totals are equal are not put one after the other by the
    comparator. *)
Lemma byImpact_ties (k : number) (a b : NewsItem) :
  eqb (total a) k = true -> eqb (total b) k = true ->
  ltb (Fin 0) (byImpact a b) = false.
Proof.
  intros Ha Hb. unfold byImpact. rewrite sub_positive.
  rewrite <- (ltb_eqb_compat _ _ _ _
                (sortKey_total a (eqb_not_NaN _ _ Ha))
                (sortKey_total b (eqb_not_NaN _ _ Hb))).
  apply eqb_ltb_false. apply eqb_trans with k; [exact Ha|].
  now rewrite eqb_sym.
Qed.

(** C4: the list [scoreAllNewsImpact] returns holds the scored items, goes
    down along [impact.totalScore] (no item comes before one with a greater
    total), and items with equal totals are in the order of the input. *)
Theorem scoreAllNewsImpact_sorted_stable (news : list (NewsItem * reply)) :
  Permutation (map scoreItem news) (scoreAllNewsImpact news)
  /\ StronglySorted (fun a b => ltb (total a) (total b) = false)
       (scoreAllNewsImpact news)
  /\ (forall k,
        filter (fun item => eqb (total item) k) (scoreAllNewsImpact news)
        = filter (fun item => eqb (total item) k) (map scoreItem news)).
Proof.
  assert (E : scoreAllNewsImpact news = sort byImpact (map scoreItem news))
    by (destruct news; reflexivity).
  rewrite E. split; [apply sort_perm|]. split.
  - apply StronglySorted_impl
      with (R := fun a b => ltb (sortKey a) (sortKey b) = false).
    + exact total_ltb_sortKey.
    + apply sort_sorted; [reflexivity | exact sortKey_number].
  - intros k. apply filter_sort. intros a b. apply byImpact_ties.
Qed.

End Impact.

(** The totals 40, 90, 40, 10 of the specification's test. *)
Example scoreAllNewsImpact_40_90_40_10 :
  map url
    (ImpactScorer.scoreAllNewsImpact (H := literalParsing)
       [ (fetched (js "first") [] (js "a"), totalOnly 40);
         (fetched (js "second") [] (js "b"), totalOnly 90);
         (fetched (js "third") [] (js "c"), totalOnly 40);
         (fetched (js "fourth") [] (js "d"), totalOnly 10) ])
  = [js "b"; js "a"; js "c"; js "d"].
Proof. reflexivity. Qed.

(** C3, at an answer with fields that are not numbers: the validated
    [policyStrength] and [totalScore] are [NaN], within no range. *)
Theorem scoreImpact_non_numeric_fields :
  ImpactScorer.scoreImpact (H := literalParsing)
    (Answered (Normal nonNumericResult) None)
  = Normal {| policyStrength := NaN;
              expectationGap := Fin 20;
              timeUrgency := Fin 15;
              cryptoRelevance := Fin 20;
              totalScore := NaN;
              level := VStr [0x9ad8; 0x5f71; 0x54cd]%N;
              direction := VStr [0x5229; 0x7a7a]%N;
              reasoning := VStr ImpactScorer.NO_REASONING |}
  /\ ~ within 0 25 NaN /\ ~ within 0 100 NaN.
Proof.
  split; [reflexivity|].
  split; intros (q & E & _); discriminate.
Qed.

(** Numbers out of range and fields that are missing, as in the
    specification's examples. *)
Example clamp_examples :
  ImpactScorer.clamp (H := literalParsing) 25 (VNum (Fin (-5))) = Fin 0
  /\ ImpactScorer.clamp (H := literalParsing) 25 VUndefined = Fin 0
  /\ ImpactScorer.clamp (H := literalParsing) 25 (VNum (Fin 30)) = Fin 25
  /\ ImpactScorer.clamp (H := literalParsing) 100 (VStr (js "85")) = Fin 85.
Proof. repeat split; reflexivity. Qed.

(** ** The relevance oracle adapter *)

Section Relevance.
Import AiFilter.
Context `{NumberParsing}.

(** [judgeRelevance] returns on every reply. *)
Lemma judgeRelevance_returns (r : reply) :
  exists judgment, judgeRelevance r = Normal judgment.
Proof.
  unfold judgeRelevance, parseResult.
  destruct r as [message|[result|parseError] scoreMatch]; simpl; eauto.
Qed.

Lemma settleBatch_fulfilled (batch : list (NewsItem * reply)) :
  forallb (isFulfilled (A := NewsItem * Judgment)) (settleBatch batch) = true.
Proof.
  unfold settleBatch. induction batch as [|call batch IH]; [reflexivity|].
  cbn [map forallb]. rewrite IH, andb_true_r.
  destruct (judgeRelevance_returns (snd call)) as [judgment ->]. reflexivity.
Qed.

Lemma forResults_kept (rest pre : list (NewsItem * reply))
    (filtered : list NewsItem) :
  forResults (pre ++ rest) (settleBatch rest) (length pre) filtered
  = filtered ++ flat_map kept rest.
Proof.
  revert pre filtered. induction rest as [|call rest IH]; intros pre filtered.
  - simpl. now rewrite app_nil_r.
  - assert (Enth : nth_error (pre ++ call :: rest) (length pre) = Some call).
    { rewrite nth_error_app2 by lia. now rewrite Nat.sub_diag. }
    assert (Estep : forall f,
               forResults (pre ++ call :: rest) (settleBatch rest)
                 (S (length pre)) f
               = f ++ flat_map kept rest).
    { intros f. specialize (IH (pre ++ [call]) f).
      rewrite <- app_assoc, length_app, Nat.add_1_r in IH. exact IH. }
    cbn [settleBatch map flat_map]. unfold kept at 1.
    destruct (judgeRelevance (snd call)) as [judgment|message];
      cbn [settle forResults fst].
    + rewrite Estep.
      destruct (truthy (relevant judgment)); rewrite <- ?app_assoc;
        reflexivity.
    + rewrite Enth, Estep, <- app_assoc. reflexivity.
Qed.

Lemma batchLoop_kept (news : list (NewsItem * reply)) (i : nat)
    (filtered : list NewsItem) :
  batchLoop news i filtered = filtered ++ flat_map kept (skipn i news).
Proof.
  funelim (batchLoop news i filtered).
  - match goal with IH : batchLoop _ _ _ = _ ++ _ |- _ => rewrite IH end.
    pose proof (forResults_kept (slice i (i + batchSize) news) [] filtered)
      as Ebatch.
    cbn [app length] in Ebatch. rewrite Ebatch.
    unfold slice. replace (i + batchSize - i) with batchSize by lia.
    rewrite <- app_assoc, <- flat_map_app. f_equal. f_equal.
    rewrite (Nat.add_comm i), <- skipn_skipn. apply firstn_skipn.
  - rewrite skipn_all2 by lia. now rewrite app_nil_r.
Qed.

Lemma filterByAI_kept (news : list (NewsItem * reply)) :
  filterByAI news = flat_map kept news.
Proof.
  destruct news as [|call news]; [reflexivity|].
  unfold filterByAI. now rewrite batchLoop_kept.
Qed.

End Relevance.

Section RelevanceClaims.
Import AiFilter.
Context `{NumberParsing}.

(** C8: when the call of the oracle fails, [judgeRelevance] returns the
    score 5 and [relevant: true], with the reason 'AI 判断出错: ' followed by
    the error's message; [filterByAI] keeps the item, as it was but for
    [aiScore], now 5, and [aiReason], now that reason; and the items before
    and after it, in its batch and in the others, fare as they do
    without it. *)
Theorem filterByAI_keeps_failed_item
    (before after : list (NewsItem * reply)) (item : NewsItem)
    (message : jsstring) :
  judgeRelevance (Failed message)
  = Normal {| score := VNum (Fin 5);
              reason := VStr (JUDGE_ERROR ++ message);
              relevant := VBool true |}
  /\ filterByAI (before ++ (item, Failed message) :: after)
     = filterByAI before
       ++ {| title := title item; description := description item;
             url := url item; publishedAt := publishedAt item;
             source := source item; keywordMatches := keywordMatches item;
             aiScore := Some (VNum (Fin 5));
             aiReason := Some (VStr (JUDGE_ERROR ++ message));
             impact := impact item |}
       :: filterByAI after.
Proof.
  split; [reflexivity|].
  rewrite !filterByAI_kept, flat_map_app. reflexivity.
Qed.

(** What the code keeps of the promise of [judgeRelevance]: it never
    throws, it returns a judgment on every reply, so every entry of
    [Promise.allSettled] is fulfilled and the branch of [filterByAI] for a
    rejected one is never taken.  When the call fails or the answer cannot
    be parsed, the score is a number and [relevant] a boolean.  For a parsed
    answer nothing checks the types: the score is a number only when the
    answer's score is a number or falsy, and [relevant] a boolean only when
    the answer's is a boolean or missing. *)
Lemma judgeRelevance_never_throws :
  (forall r, exists judgment,
     judgeRelevance r = Normal judgment
     /\ match r with
        | Answered (Normal result) _ =>
            isNumber (score judgment)
            = isNumber (get result "score")
              || negb (truthy (get result "score"))
            /\ isBoolean (relevant judgment)
               = isBoolean (get result "relevant")
                 || negb (isDefined (get result "relevant"))
        | _ =>
            isNumber (score judgment) = true
            /\ isBoolean (relevant judgment) = true
        end)
  /\ (forall batch,
        forallb (isFulfilled (A := NewsItem * Judgment)) (settleBatch batch)
        = true).
Proof.
  split; [|exact settleBatch_fulfilled].
  intros [message|[result|parseError] scoreMatch].
  - eexists. split; [reflexivity|]. split; reflexivity.
  - eexists. split; [reflexivity|]. cbn [score relevant]. unfold or. split.
    + destruct (get result "score") as [| |b|x|s|]; try reflexivity.
      * now destruct b.
      * now destruct (truthy (VNum x)).
      * now destruct (truthy (VStr s)).
    + now destruct (get result "relevant").
  - eexists. split; [reflexivity|]. split; [|reflexivity].
    cbn [parseResult tryCatch score get String.eqb Ascii.eqb Bool.eqb].
    unfold or. now destruct (truthy _).
Qed.

End RelevanceClaims.

(** C10: on the answer {"score":"8/10","reason":"Fed","relevant":"yes"},
    which parses, [judgeRelevance] returns the string "8/10" as score and
    the string "yes" as [relevant]: the score is not a number and the flag
    is not a boolean, against the
    [{ score: number, reason: string, relevant: boolean }] that the function
    documents and that its two other paths return.  [filterByAI] takes the
    string for a flag that is set, keeps the item and stores the string
    "8/10" in [aiScore]. *)
Theorem judgeRelevance_untyped_fields :
  AiFilter.judgeRelevance (H := literalParsing)
    (Answered (Normal stringlyResult) None)
  = Normal {| AiFilter.score := VStr (js "8/10");
              AiFilter.reason := VStr (js "Fed");
              AiFilter.relevant := VStr (js "yes") |}
  /\ isNumber (VStr (js "8/10")) = false
  /\ isBoolean (VStr (js "yes")) = false
  /\ map aiScore
       (AiFilter.filterByAI (H := literalParsing)
          [(fedItem, Answered (Normal stringlyResult) None)])
     = [Some (VStr (js "8/10"))].
Proof. repeat split; reflexivity. Qed.

(** ** The deduplication ledger *)

Section Ledger.
Import Deduplicator.

Lemma maxAge_positive : (0 < maxAge)%Z.
Proof. reflexivity. Qed.

Lemma valid_spec (now : Z) (r : DedupRecord) :
  valid now r = true
  <-> exists t, sentAt r = Some t /\ (now - t < maxAge)%Z.
Proof.
  unfold valid. destruct (sentAt r) as [t|].
  - rewrite Z.ltb_lt. split.
    + intros Hlt. now exists t.
    + intros (t' & [= <-] & Hlt). exact Hlt.
  - split; [discriminate|]. intros (t & E & _). discriminate.
Qed.

(** A record made at [now] is within the window at [now]. *)
Lemma valid_recordOf (now : Z) (item : NewsItem) :
  valid now (recordOf now item) = true.
Proof.
  apply valid_spec. exists now. split; [reflexivity|].
  rewrite Z.sub_diag. exact maxAge_positive.
Qed.

(** C5: a record sent 30 days or more before the operation is in the
    records neither of [loadSentNews] nor of [saveSentNews]; [saveSentNews]
    stores the existing records followed by the records {url, title,
    sentAt = now} of the news, filtered by the 30-day window, and so every
    new record; and a record of the store that is within the window at the
    load, at the save and at the second load is still there after load,
    save and load. *)
Theorem ledger_retention (recs existing : list DedupRecord)
    (news : list NewsItem) :
  (forall now f r t,
     sentAt r = Some t -> (maxAge <= now - t)%Z ->
     ~ In r (records (loadSentNews now f))
     /\ ~ In r (storedRecords (saveSentNews now news existing)))
  /\ (forall now,
        saveSentNews now news existing
        = Document (filter (valid now)
                      (existing ++ map (recordOf now) news)))
  /\ (forall now item,
        In item news ->
        In (recordOf now item)
           (storedRecords (saveSentNews now news existing)))
  /\ (forall r t t1 t2 t3,
        In r recs -> sentAt r = Some t ->
        (t1 - t < maxAge)%Z -> (t2 - t < maxAge)%Z -> (t3 - t < maxAge)%Z ->
        In r (records
                (loadSentNews t3
                   (saveSentNews t2 news
                      (records (loadSentNews t1 (Document recs))))))).
Proof.
  split; [|split; [|split]].
  - intros now f r t Et Hold.
    assert (Hinvalid : valid now r = false).
    { unfold valid. rewrite Et. apply Z.ltb_ge. exact Hold. }
    split; intros Hin.
    + destruct f as [| |stored]; simpl in Hin; try contradiction.
      apply filter_In in Hin as [_ Hv]. congruence.
    + simpl in Hin. apply filter_In in Hin as [_ Hv]. congruence.
  - reflexivity.
  - intros now item Hin. simpl. apply filter_In. split.
    + apply in_or_app. right. now apply in_map.
    + apply valid_recordOf.
  - intros r t t1 t2 t3 Hin Et H1 H2 H3.
    assert (Hv : forall now, (now - t < maxAge)%Z -> valid now r = true).
    { intros now Hlt. apply valid_spec. now exists t. }
    simpl. apply filter_In. split; [|now apply Hv].
    apply filter_In. split; [|now apply Hv].
    apply in_or_app. left. apply filter_In. split; [exact Hin|now apply Hv].
Qed.

End Ledger.

(** The theorem at a store with one record sent at instant 0: it is gone at
    a load 30 days later, and there after load, save and load over a
    second. *)
Lemma ledger_retention_witness :
  ~ In (recordOf 0 btcItem)
       (Deduplicator.records
          (Deduplicator.loadSentNews 2592000000
             (Deduplicator.Document [recordOf 0 btcItem])))
  /\ In (recordOf 0 btcItem)
        (Deduplicator.records
           (Deduplicator.loadSentNews 1000
              (Deduplicator.saveSentNews 500 [fedItem]
                 (Deduplicator.records
                    (Deduplicator.loadSentNews 0
                       (Deduplicator.Document [recordOf 0 btcItem])))))).
Proof.
  split.
  - apply (proj1 (ledger_retention [recordOf 0 btcItem] [] [])
             2592000000%Z (Deduplicator.Document [recordOf 0 btcItem])
             (recordOf 0 btcItem) 0%Z).
    + reflexivity.
    + vm_compute. discriminate.
  - apply (proj2 (proj2 (proj2
             (ledger_retention [recordOf 0 btcItem] [] [fedItem])))
             (recordOf 0 btcItem) 0%Z 0%Z 500%Z 1000%Z).
    + left. reflexivity.
    + reflexivity.
    + reflexivity.
    + reflexivity.
    + reflexivity.
Defined.

(** ** The orchestrator *)

Section Orchestrator.
Import Deduplicator Pipeline.

(** When [sendNewsSummaries] throws, the run ends in [process.exit(1)] and
    the ledger is not saved. *)
Lemma main_aborts_without_commit (env : Sender.Env) (chan : Sender.channel)
    (d : disk) (loadNow saveNow : Z) (summarize : NewsItem -> jsstring)
    (scoredNews : list NewsItem) (f : store) (n : nat)
    (message : jsstring) :
  Sender.sendNewsSummaries env chan
    (map summarize
       (filterUnsentNews scoredNews (urls (loadSentNews loadNow f)))) 0
  = (n, Throw message) ->
  main env chan d loadNow saveNow summarize scoredNews f
  = (afterLoad d f (loadSentNews loadNow f), Exit1).
Proof.
  intros E. unfold main. rewrite E.
  destruct (filterUnsentNews scoredNews (urls (loadSentNews loadNow f))).
  - destruct env as [token chatId]. cbn [map Sender.sendNewsSummaries] in E.
    discriminate.
  - reflexivity.
Qed.

(** When [sendNewsSummaries] returns, whatever the count, and the file
    system takes the document, the ledger is saved with a record for every
    unsent item. *)
Lemma main_commits_all_unsent (env : Sender.Env) (chan : Sender.channel)
    (d : disk) (loadNow saveNow : Z) (summarize : NewsItem -> jsstring)
    (scoredNews : list NewsItem) (f : store) (n sentCount : nat)
    (item : NewsItem) :
  Sender.sendNewsSummaries env chan
    (map summarize
       (filterUnsentNews scoredNews (urls (loadSentNews loadNow f)))) 0
  = (n, Normal sentCount) ->
  d (saveSentNews saveNow
       (filterUnsentNews scoredNews (urls (loadSentNews loadNow f)))
       (records (loadSentNews loadNow f)))
  = Normal tt ->
  In item (filterUnsentNews scoredNews (urls (loadSentNews loadNow f))) ->
  In (recordOf saveNow item)
     (storedRecords
        (fst (main env chan d loadNow saveNow summarize scoredNews f))).
Proof.
  intros E Ed Hin. unfold main. rewrite E.
  destruct (filterUnsentNews scoredNews (urls (loadSentNews loadNow f)))
    as [|first rest] eqn:Eu; [contradiction|].
  rewrite Ed. cbn [fst]. simpl. apply filter_In. split.
  - apply in_or_app. right. now apply (in_map (recordOf saveNow)) in Hin.
  - apply valid_recordOf.
Qed.

End Orchestrator.

(** C1, at a run with the bot configured and two unsent items whose
    summaries are sent one by one: every attempt to send the message of the
    first item fails, the second item is delivered and [sendNewsSummaries]
    returns 1; [main] then saves the ledger with the records of both items,
    the undelivered one too. *)
Theorem main_records_undelivered_item :
  Sender.sendNewsSummaries configured refusesFed
    (map longSummary [fedItem; btcItem]) 0
  = (4, Normal 1)
  /\ (forall n chunk,
        In chunk (Sender.chunks (Sender.header 0 2 ++ longSummary fedItem)) ->
        refusesFed n chunk = Throw (js "ETELEGRAM"))
  /\ Pipeline.main configured refusesFed accepting 1000 2000 longSummary
       [fedItem; btcItem] Deduplicator.Absent
     = (Deduplicator.Document [recordOf 2000 fedItem; recordOf 2000 btcItem],
        Pipeline.Exit0)
  /\ In (recordOf 2000 fedItem)
        (storedRecords
           (fst (Pipeline.main configured refusesFed accepting 1000 2000
                   longSummary [fedItem; btcItem] Deduplicator.Absent))).
Proof.
  split; [vm_compute; reflexivity|]. split.
  - intros n chunk Hin.
    assert (E : includes chunk (js "Fed") = true).
    { revert chunk Hin. apply Forall_forall. vm_compute.
      constructor; [reflexivity|constructor]. }
    unfold refusesFed. now rewrite E.
  - split; [vm_compute; reflexivity|].
    vm_compute. left. reflexivity.
Qed.

(** * Further properties of the code *)

(** ** Delivery *)

Section Delivery.
Import Sender.

Lemma unset_spec (value : option jsstring) :
  unset value = false <-> isSet value.
Proof.
  unfold unset, isSet. destruct value as [[|c s]|]; cbn [nonempty negb].
  - split; [discriminate|]. intros (s & [= <-] & Hs). contradiction.
  - split; [|reflexivity]. intros _. exists (c :: s). split; [reflexivity|].
    discriminate.
  - split; [discriminate|]. intros (s & E & _). discriminate.
Qed.

Lemma initBot_configured (env : Env) :
  isSet (TELEGRAM_BOT_TOKEN env) -> isSet (TELEGRAM_CHAT_ID env) ->
  initBot env = Normal tt.
Proof.
  intros Ht Hc. apply unset_spec in Ht, Hc. unfold initBot.
  now rewrite Ht, Hc.
Qed.

Lemma initBot_no_token (env : Env) :
  ~ isSet (TELEGRAM_BOT_TOKEN env) -> initBot env = Throw TOKEN_UNSET.
Proof.
  intros Ht. unfold initBot.
  destruct (unset (TELEGRAM_BOT_TOKEN env)) eqn:E; [reflexivity|].
  now apply unset_spec in E.
Qed.

Lemma initBot_no_chat_id (env : Env) :
  isSet (TELEGRAM_BOT_TOKEN env) -> ~ isSet (TELEGRAM_CHAT_ID env) ->
  initBot env = Throw CHAT_ID_UNSET.
Proof.
  intros Ht Hc. apply unset_spec in Ht. unfold initBot. rewrite Ht.
  destruct (unset (TELEGRAM_CHAT_ID env)) eqn:E; [reflexivity|].
  now apply unset_spec in E.
Qed.

(** Without a bot nothing is attempted. *)
Lemma initBot_throws_sendAll (env : Env) (chan : channel) (e : jsstring)
    (messages : list jsstring) (n : nat) :
  initBot env = Throw e -> messages <> [] ->
  sendAll env chan messages n = (n, Throw e).
Proof.
  intros E Hne. destruct messages as [|msg rest]; [contradiction|].
  cbn [sendAll]. unfold sendMessageWithRetry. now rewrite E.
Qed.

Lemma retry_outcome (chan : channel) (message : jsstring) (n : nat) :
  match retryLoop chan message 3 n with
  | (n', Normal sent) =>
      sent = true
      /\ exists k,
           k < 3 /\ n' = n + k + 1
           /\ chan (n + k) message = Normal tt
           /\ forall j, j < k -> exists e, chan (n + j) message = Throw e
  | (n', Throw e) =>
      n' = n + 3
      /\ chan (n + 2) message = Throw e
      /\ forall j, j < 3 -> exists e', chan (n + j) message = Throw e'
  end.
Proof.
  cbn [retryLoop].
  replace (S n) with (n + 1) by lia.
  replace (S (n + 1)) with (n + 2) by lia.
  replace (S (n + 2)) with (n + 3) by lia.
  pose proof (Nat.add_0_r n) as E0.
  destruct (chan n message) as [[]|e0] eqn:A0.
  { split; [reflexivity|]. exists 0. rewrite E0.
    repeat split; try lia; auto. }
  destruct (chan (n + 1) message) as [[]|e1] eqn:A1.
  { split; [reflexivity|]. exists 1. repeat split; try lia; auto.
    intros j Hj. assert (j = 0) as -> by lia. rewrite E0. eauto. }
  destruct (chan (n + 2) message) as [[]|e2] eqn:A2.
  { split; [reflexivity|]. exists 2. repeat split; try lia; auto.
    intros j Hj. destruct j as [|[|j]]; [rewrite E0| |lia]; eauto. }
  repeat split; auto.
  intros j Hj. destruct j as [|[|[|j]]]; [rewrite E0| | |lia]; eauto.
Qed.

(** X1: when the token or the chat id is not set, [sendMessageWithRetry]
    throws the error of [initBot] and calls nothing.  With both set it makes
    at most three calls and stops at the first one that is accepted,
    returning [true]; it throws only after three refusals, and then the
    error of the third; it never returns [false]. *)
Theorem sendMessageWithRetry_attempts (env : Env) (chan : channel)
    (message : jsstring) (n : nat) :
  (~ isSet (TELEGRAM_BOT_TOKEN env) ->
   sendMessageWithRetry env chan message n = (n, Throw TOKEN_UNSET))
  /\ (isSet (TELEGRAM_BOT_TOKEN env) -> ~ isSet (TELEGRAM_CHAT_ID env) ->
      sendMessageWithRetry env chan message n = (n, Throw CHAT_ID_UNSET))
  /\ (isSet (TELEGRAM_BOT_TOKEN env) -> isSet (TELEGRAM_CHAT_ID env) ->
      match sendMessageWithRetry env chan message n with
      | (n', Normal sent) =>
          sent = true
          /\ exists k,
               k < 3 /\ n' = n + k + 1
               /\ chan (n + k) message = Normal tt
               /\ forall j, j < k -> exists e, chan (n + j) message = Throw e
      | (n', Throw e) =>
          n' = n + 3
          /\ chan (n + 2) message = Throw e
          /\ forall j, j < 3 -> exists e', chan (n + j) message = Throw e'
      end).
Proof.
  unfold sendMessageWithRetry. split; [|split].
  - intros Ht. now rewrite (initBot_no_token env Ht).
  - intros Ht Hc. now rewrite (initBot_no_chat_id env Ht Hc).
  - intros Ht Hc. rewrite (initBot_configured env Ht Hc).
    apply retry_outcome.
Qed.

(** X2: the chunks of a message go out in order and the first one that
    fails ends the sending: the chunks after it are not attempted. *)
Theorem sendAll_app (env : Env) (chan : channel) (a b : list jsstring)
    (n : nat) :
  sendAll env chan (a ++ b) n
  = match sendAll env chan a n with
    | (n', Normal _) => sendAll env chan b n'
    | (n', Throw e) => (n', Throw e)
    end.
Proof.
  revert n. induction a as [|msg a IH]; intros n; [reflexivity|].
  cbn [app sendAll].
  destruct (sendMessageWithRetry env chan msg n) as [n' [sent|e]];
    [apply IH|reflexivity].
Qed.

Lemma sendSeparately_count (env : Env) (chan : channel) (total : nat)
    (summaries : list jsstring) :
  forall i successCount n,
    snd (sendSeparately env chan total summaries i successCount n)
    <= successCount + length summaries.
Proof.
  induction summaries as [|summary rest IH]; intros i c n;
    cbn [sendSeparately length].
  - cbn [snd]. lia.
  - destruct (sendAll env chan (chunks (header i total ++ summary)) n)
      as [n' [u|e]].
    + specialize (IH (S i) (S c) n'). lia.
    + specialize (IH (S i) c n'). lia.
Qed.

(** X3: with nothing to send [sendNewsSummaries] returns 0, whatever the
    environment.  With something to send and the token or the chat id not
    set, it throws the error of [initBot] before anything is sent, in the
    one-by-one mode as well.  With both set, the count it returns never
    exceeds the number of summaries, and it throws only when there is one
    summary or when the summaries fit one message together: sent one by
    one, they never make it throw. *)
Theorem sendNewsSummaries_outcome (env : Env) (chan : channel)
    (summaries : list jsstring) (n : nat) :
  sendNewsSummaries env chan [] n = (n, Normal 0)
  /\ (summaries <> [] -> ~ isSet (TELEGRAM_BOT_TOKEN env) ->
      sendNewsSummaries env chan summaries n = (n, Throw TOKEN_UNSET))
  /\ (summaries <> [] ->
      isSet (TELEGRAM_BOT_TOKEN env) -> ~ isSet (TELEGRAM_CHAT_ID env) ->
      sendNewsSummaries env chan summaries n = (n, Throw CHAT_ID_UNSET))
  /\ (isSet (TELEGRAM_BOT_TOKEN env) -> isSet (TELEGRAM_CHAT_ID env) ->
      match snd (sendNewsSummaries env chan summaries n) with
      | Normal count => count <= length summaries
      | Throw _ =>
          length summaries = 1
          \/ (2 <= length summaries
              /\ length (join separator summaries) <= 4096)
      end).
Proof.
  split; [reflexivity|]. split; [|split].
  - intros Hne Ht. destruct summaries as [|s1 rest]; [contradiction|].
    cbn [sendNewsSummaries]. now rewrite (initBot_no_token env Ht).
  - intros Hne Ht Hc. destruct summaries as [|s1 rest]; [contradiction|].
    cbn [sendNewsSummaries]. now rewrite (initBot_no_chat_id env Ht Hc).
  - intros Ht Hc. unfold sendNewsSummaries.
    destruct summaries as [|s1 [|s2 rest]].
    + cbn [snd length]. lia.
    + rewrite (initBot_configured env Ht Hc).
      destruct (sendAll env chan (chunks s1) n) as [n' [u|e]];
        cbn [snd length].
      * lia.
      * now left.
    + rewrite (initBot_configured env Ht Hc).
      destruct (Nat.leb_spec (length (join separator (s1 :: s2 :: rest)))
                  TELEGRAM_MAX_MESSAGE_LENGTH) as [Hfit|Hlong].
      * destruct (sendAll env chan
                    (chunks (join separator (s1 :: s2 :: rest))) n)
          as [n' [u|e]]; cbn [snd].
        -- lia.
        -- right. split; [cbn [length]; lia|exact Hfit].
      * pose proof (sendSeparately_count env chan
                      (length (s1 :: s2 :: rest)) (s1 :: s2 :: rest) 0 0 n)
          as Hcount.
        destruct (sendSeparately env chan (length (s1 :: s2 :: rest))
                    (s1 :: s2 :: rest) 0 0 n) as [n' count].
        cbn [snd] in *. lia.
Qed.

(** A text that is not empty is cut into chunks that Telegram takes. *)
Lemma chunks_deliverable (message : jsstring) :
  message <> [] -> Forall deliverable (chunks message).
Proof.
  intros Hne. unfold chunks, splitMessage, deliverable.
  destruct (Nat.leb_spec (length message) TELEGRAM_MAX_MESSAGE_LENGTH)
    as [Hfit|Hlong].
  - constructor; [|constructor]. split; assumption.
  - destruct (forLines_ok TELEGRAM_MAX_MESSAGE_LENGTH (split message)
                ltac:(unfold TELEGRAM_MAX_MESSAGE_LENGTH; lia) ([], []))
      as ([messages currentMessage] & E & Hok).
    { split; cbn [fst snd length]; [constructor | lia]. }
    rewrite E. cbn [option_map flush].
    eapply Forall_impl; [|exact (push_current_ok _ _ _ Hok)].
    cbn beta. intros c [Hlen Hc]. split; assumption.
Qed.

(** The chunks of a message hold its code units other than newlines. *)
Lemma chunks_content (message : jsstring) :
  withoutNL (concat (chunks message)) = withoutNL message.
Proof.
  unfold chunks, splitMessage.
  destruct (Nat.leb_spec (length message) TELEGRAM_MAX_MESSAGE_LENGTH)
    as [Hfit|Hlong].
  - cbn [concat]. now rewrite app_nil_r.
  - assert (Hmax : 1 <= TELEGRAM_MAX_MESSAGE_LENGTH)
      by (unfold TELEGRAM_MAX_MESSAGE_LENGTH; lia).
    destruct (forLines_ok TELEGRAM_MAX_MESSAGE_LENGTH (split message)
                Hmax ([], [])) as (st & E & _).
    { split; cbn [fst snd length]; [constructor | lia]. }
    rewrite E. cbn [option_map].
    rewrite concat_flush, (forLines_content _ _ Hmax _ _ E). simpl.
    now rewrite concat_split, withoutNL_idem.
Qed.

Lemma sendAll_accepted (env : Env) (chan : channel)
    (messages : list jsstring) :
  initBot env = Normal tt ->
  telegramAccepts chan ->
  Forall deliverable messages ->
  forall n, sendAll env chan messages n = (n + length messages, Normal tt).
Proof.
  intros Ebot Hchan. induction 1 as [|msg rest [Hne Hlen] _ IH]; intros n.
  - cbn [sendAll length]. now rewrite Nat.add_0_r.
  - cbn [sendAll length]. unfold sendMessageWithRetry. rewrite Ebot.
    cbn [retryLoop].
    rewrite (Hchan n msg Hne Hlen), IH. f_equal. lia.
Qed.

Lemma header_nonempty (i total : nat) (summary : jsstring) :
  header i total ++ summary <> [].
Proof. discriminate. Qed.

(** Sent one by one to a channel that takes them, the summaries make one
    call for every chunk of their messages. *)
Lemma sendSeparately_accepted (env : Env) (chan : channel) (total : nat)
    (summaries : list jsstring) :
  initBot env = Normal tt ->
  telegramAccepts chan ->
  forall i successCount n,
    sendSeparately env chan total summaries i successCount n
    = (n + length
             (flat_map chunks
                (map (fun numbered => header (fst numbered) total
                                        ++ snd numbered)
                   (combine (seq i (length summaries)) summaries))),
       successCount + length summaries).
Proof.
  intros Ebot Hchan. induction summaries as [|summary rest IH];
    intros i c n; cbn [sendSeparately length seq combine map flat_map].
  - f_equal; lia.
  - rewrite (sendAll_accepted env chan _ Ebot Hchan
               (chunks_deliverable _ (header_nonempty i total summary))).
    rewrite IH, length_app. cbn [fst snd]. f_equal; lia.
Qed.

Lemma jsstring_eqb_refl (a : jsstring) : jsstring_eqb a a = true.
Proof.
  unfold jsstring_eqb. now destruct (list_eq_dec N.eq_dec a a).
Qed.

(** The channel that expects the texts takes them, one call each. *)
Lemma sendAll_expecting (env : Env) (texts : list jsstring) :
  initBot env = Normal tt ->
  forall pre post,
    sendAll env (expecting (pre ++ texts ++ post)) texts (length pre)
    = (length pre + length texts, Normal tt).
Proof.
  intros Ebot. induction texts as [|text rest IH]; intros pre post.
  - cbn [sendAll length]. now rewrite Nat.add_0_r.
  - cbn [sendAll]. unfold sendMessageWithRetry. rewrite Ebot.
    cbn [retryLoop]. unfold expecting at 1.
    rewrite nth_error_app2, Nat.sub_diag by lia. cbn [app nth_error].
    rewrite jsstring_eqb_refl.
    specialize (IH (pre ++ [text]) post).
    rewrite <- app_assoc, length_app, Nat.add_1_r in IH. cbn [app] in IH.
    rewrite IH. cbn [length]. f_equal. lia.
Qed.

Lemma sendSeparately_expecting (env : Env) (total : nat)
    (summaries : list jsstring) :
  initBot env = Normal tt ->
  forall i successCount pre post,
    sendSeparately env
      (expecting
         (pre
          ++ flat_map chunks
               (map (fun numbered => header (fst numbered) total
                                       ++ snd numbered)
                  (combine (seq i (length summaries)) summaries))
          ++ post))
      total summaries i successCount (length pre)
    = (length pre
       + length
           (flat_map chunks
              (map (fun numbered => header (fst numbered) total
                                      ++ snd numbered)
                 (combine (seq i (length summaries)) summaries))),
       successCount + length summaries).
Proof.
  intros Ebot. induction summaries as [|summary rest IH];
    intros i c pre post; cbn [sendSeparately length seq combine map flat_map].
  - f_equal; lia.
  - cbn [fst snd]. rewrite <- app_assoc.
    rewrite (sendAll_expecting env _ Ebot pre).
    specialize (IH (S i) (S c) (pre ++ chunks (header i total ++ summary))
                  post).
    rewrite <- app_assoc, length_app in IH. rewrite IH.
    rewrite length_app. f_equal; lia.
Qed.

Lemma flat_map_chunks_deliverable (messages : list jsstring) :
  Forall (fun message => message <> []) messages ->
  Forall deliverable (flat_map chunks messages).
Proof.
  induction 1 as [|message rest Hne _ IH]; [constructor|].
  cbn [flat_map]. apply Forall_app. split; [|exact IH].
  now apply chunks_deliverable.
Qed.

Lemma flat_map_chunks_content (messages : list jsstring) :
  withoutNL (concat (flat_map chunks messages))
  = withoutNL (concat messages).
Proof.
  induction messages as [|message rest IH]; [reflexivity|].
  cbn [flat_map concat].
  now rewrite concat_app, !withoutNL_app, IH, chunks_content.
Qed.

Lemma messagesOf_nonempty (summaries : list jsstring) :
  Forall (fun summary => summary <> []) summaries ->
  Forall (fun message => message <> []) (messagesOf summaries).
Proof.
  intros Hne. unfold messagesOf.
  destruct summaries as [|s1 [|s2 rest]]; [constructor|exact Hne|].
  destruct (length (join separator (s1 :: s2 :: rest)) <=? 4096).
  - constructor; [|constructor]. inversion Hne as [|? ? H1 _]; subst.
    cbn [join]. destruct s1; [contradiction|discriminate].
  - apply Forall_forall. intros message Hin.
    apply in_map_iff in Hin as ([i summary] & <- & _).
    apply header_nonempty.
Qed.

(** X4: with the bot configured, the texts [sendNewsSummaries] hands to
    [bot.sendMessage] are the chunks of its messages (the summary; the
    summaries joined by the separator when that fits 4096 code units;
    otherwise each summary behind its header), one call for each and in
    their order: the channel that takes as its n-th call nothing but the
    n-th chunk takes every call.  The chunks hold every code unit of the
    messages other than newlines, in order, and when no summary is empty no
    chunk is empty or longer than 4096 code units; so with a channel that
    accepts every text that is not empty and within 4096 code units no call
    is refused: one call is made for every chunk and the number of
    summaries is returned.  A message made of newlines only, if longer than
    4096, has no chunk: nothing is sent for it, and it is counted all the
    same. *)
Theorem sendNewsSummaries_delivers_all (env : Env) (chan : channel)
    (summaries : list jsstring) (n : nat) :
  isSet (TELEGRAM_BOT_TOKEN env) -> isSet (TELEGRAM_CHAT_ID env) ->
  sendNewsSummaries env
    (expecting (flat_map chunks (messagesOf summaries))) summaries 0
  = (length (flat_map chunks (messagesOf summaries)),
     Normal (length summaries))
  /\ withoutNL (concat (flat_map chunks (messagesOf summaries)))
     = withoutNL (concat (messagesOf summaries))
  /\ (Forall (fun summary => summary <> []) summaries ->
      Forall deliverable (flat_map chunks (messagesOf summaries))
      /\ (telegramAccepts chan ->
          sendNewsSummaries env chan summaries n
          = (n + length (flat_map chunks (messagesOf summaries)),
             Normal (length summaries)))).
Proof.
  intros Ht Hc.
  pose proof (initBot_configured env Ht Hc) as Ebot.
  split; [|split; [apply flat_map_chunks_content|]].
  - unfold sendNewsSummaries, messagesOf.
    destruct summaries as [|s1 [|s2 rest]]; [reflexivity| |].
    + rewrite Ebot. cbn [flat_map]. rewrite app_nil_r.
      pose proof (sendAll_expecting env (chunks s1) Ebot [] []) as E.
      cbn [app length] in E. rewrite app_nil_r in E. now rewrite E.
    + rewrite Ebot. unfold TELEGRAM_MAX_MESSAGE_LENGTH at 1.
      destruct (length (join separator (s1 :: s2 :: rest)) <=? 4096).
      * cbn [flat_map]. rewrite app_nil_r.
        pose proof (sendAll_expecting env
                      (chunks (join separator (s1 :: s2 :: rest)))
                      Ebot [] []) as E.
        cbn [app length] in E. rewrite app_nil_r in E. now rewrite E.
      * pose proof (sendSeparately_expecting env
                      (length (s1 :: s2 :: rest)) (s1 :: s2 :: rest)
                      Ebot 0 0 [] []) as E.
        cbn [app] in E. rewrite app_nil_r in E.
        change (length (@nil jsstring)) with 0 in E. now rewrite E.
  - intros Hne.
    pose proof (flat_map_chunks_deliverable _ (messagesOf_nonempty _ Hne))
      as Hok.
    split; [exact Hok|]. intros Hchan.
    revert Hok. unfold sendNewsSummaries, messagesOf.
    destruct summaries as [|s1 [|s2 rest]].
    + intros _. cbn [flat_map length]. now rewrite Nat.add_0_r.
    + intros Hok. rewrite Ebot.
      cbn [flat_map] in Hok |- *. rewrite app_nil_r in Hok |- *.
      now rewrite (sendAll_accepted env chan _ Ebot Hchan Hok).
    + rewrite Ebot. unfold TELEGRAM_MAX_MESSAGE_LENGTH at 1.
      destruct (length (join separator (s1 :: s2 :: rest)) <=? 4096).
      * intros Hok. cbn [flat_map] in Hok |- *.
        rewrite app_nil_r in Hok |- *.
        now rewrite (sendAll_accepted env chan _ Ebot Hchan Hok).
      * intros _.
        now rewrite (sendSeparately_accepted env chan
                       (length (s1 :: s2 :: rest)) (s1 :: s2 :: rest)
                       Ebot Hchan 0 0 n).
Qed.

Lemma sendAll_refused (env : Env) (chan : channel)
    (messages : list jsstring) :
  initBot env = Normal tt ->
  forall n n' e,
    sendAll env chan messages n = (n', Throw e) ->
    exists chunk k,
      In chunk messages
      /\ forall j, j < 3 -> exists e', chan (k + j) chunk = Throw e'.
Proof.
  intros Ebot.
  induction messages as [|msg rest IH]; intros n n' e; cbn [sendAll].
  - discriminate.
  - pose proof (retry_outcome chan msg n) as Hretry.
    unfold sendMessageWithRetry. rewrite Ebot.
    destruct (retryLoop chan msg 3 n) as [n1 [sent|e1]].
    + intros E. destruct (IH _ _ _ E) as (chunk & k & Hin & Hk).
      exists chunk, k. split; [now right|exact Hk].
    + intros _. destruct Hretry as (_ & _ & Hk).
      exists msg, n. split; [now left|exact Hk].
Qed.

(** X27: [sendSimpleMessage] never throws.  It answers [false] in two cases
    only: the token or the chat id is not set, and then no call is made; or
    some chunk of the message was refused three times in a row.  Without a
    configured bot it answers [false] for every message that has a chunk.
    With the bot configured and a channel that accepts every text that is
    not empty and within 4096 code units, it answers [true] for every
    message that is not empty. *)
Theorem sendSimpleMessage_outcome (env : Env) (chan : channel)
    (message : jsstring) (n : nat) :
  exists n' sent,
    sendSimpleMessage env chan message n = (n', Normal sent)
    /\ (sent = false ->
        ((~ isSet (TELEGRAM_BOT_TOKEN env)
          \/ ~ isSet (TELEGRAM_CHAT_ID env)) /\ n' = n)
        \/ exists chunk k,
             In chunk (chunks message)
             /\ forall j, j < 3 -> exists e, chan (k + j) chunk = Throw e)
    /\ (~ isSet (TELEGRAM_BOT_TOKEN env)
        \/ ~ isSet (TELEGRAM_CHAT_ID env) ->
        chunks message <> [] -> sent = false /\ n' = n)
    /\ (isSet (TELEGRAM_BOT_TOKEN env) -> isSet (TELEGRAM_CHAT_ID env) ->
        telegramAccepts chan -> message <> [] -> sent = true).
Proof.
  unfold sendSimpleMessage.
  destruct (initBot env) as [[]|e0] eqn:Ebot.
  - (* the bot is there *)
    assert (Hset : isSet (TELEGRAM_BOT_TOKEN env)
                   /\ isSet (TELEGRAM_CHAT_ID env)).
    { unfold initBot in Ebot.
      destruct (unset (TELEGRAM_BOT_TOKEN env)) eqn:Et; [discriminate|].
      destruct (unset (TELEGRAM_CHAT_ID env)) eqn:Ec; [discriminate|].
      split; now apply unset_spec. }
    destruct Hset as [Ht Hc].
    destruct (sendAll env chan (chunks message) n) as [n' [u|e]] eqn:E.
    + exists n', true. split; [reflexivity|]. split; [discriminate|].
      split; [|auto].
      intros [Hno|Hno]; contradiction.
    + exists n', false. split; [reflexivity|]. split.
      * intros _. right. exact (sendAll_refused env chan _ Ebot _ _ _ E).
      * split; [intros [Hno|Hno]; contradiction|].
        intros _ _ Hchan Hne.
        rewrite (sendAll_accepted env chan _ Ebot Hchan
                   (chunks_deliverable _ Hne)) in E.
        discriminate.
  - (* there is no bot *)
    assert (Hunset : ~ isSet (TELEGRAM_BOT_TOKEN env)
                     \/ ~ isSet (TELEGRAM_CHAT_ID env)).
    { unfold initBot in Ebot.
      destruct (unset (TELEGRAM_BOT_TOKEN env)) eqn:Et.
      - left. intros Hset. apply unset_spec in Hset. congruence.
      - destruct (unset (TELEGRAM_CHAT_ID env)) eqn:Ec; [|discriminate].
        right. intros Hset. apply unset_spec in Hset. congruence. }
    destruct (chunks message) as [|chunk rest] eqn:Echunks.
    + exists n, true. split; [reflexivity|]. split; [discriminate|].
      split; [intros _ Hne; now contradiction Hne|].
      intros Ht Hc. exfalso.
      rewrite (initBot_configured env Ht Hc) in Ebot. discriminate.
    + rewrite (initBot_throws_sendAll env chan e0 (chunk :: rest) n Ebot)
        by discriminate.
      exists n, false. split; [reflexivity|]. split.
      * intros _. left. now split.
      * split; [now split|].
        intros Ht Hc. exfalso.
        rewrite (initBot_configured env Ht Hc) in Ebot. discriminate.
Qed.

End Delivery.

(** The theorem at the two summaries of about 2500 code units each, which
    are sent one by one: the two calls carry the two messages, header and
    summary, and the channel that refuses only what Telegram refuses takes
    them. *)
Lemma sendNewsSummaries_delivers_all_witness :
  Sender.sendNewsSummaries configured
    (expecting
       (flat_map Sender.chunks
          (messagesOf (map longSummary [fedItem; btcItem]))))
    (map longSummary [fedItem; btcItem]) 0
  = (length (flat_map Sender.chunks
               (messagesOf (map longSummary [fedItem; btcItem]))),
     Normal (length (map longSummary [fedItem; btcItem])))
  /\ Forall deliverable
       (flat_map Sender.chunks
          (messagesOf (map longSummary [fedItem; btcItem])))
  /\ Sender.sendNewsSummaries configured strictTelegram
       (map longSummary [fedItem; btcItem]) 0
     = (0 + length
              (flat_map Sender.chunks
                 (messagesOf (map longSummary [fedItem; btcItem]))),
        Normal (length (map longSummary [fedItem; btcItem]))).
Proof.
  destruct (sendNewsSummaries_delivers_all configured strictTelegram
              (map longSummary [fedItem; btcItem]) 0)
    as (Hcalls & _ & Hrest).
  - eexists. split; [reflexivity|discriminate].
  - eexists. split; [reflexivity|discriminate].
  - destruct Hrest as [Hok Hsent]; [repeat constructor; discriminate|].
    split; [exact Hcalls|]. split; [exact Hok|]. apply Hsent.
    intros n message Hne Hlen. unfold strictTelegram.
    destruct message; [contradiction|]. cbn [nonempty andb].
    unfold Sender.TELEGRAM_MAX_MESSAGE_LENGTH in Hlen.
    apply Nat.leb_le in Hlen. now rewrite Hlen.
Defined.

(** The calls of the witness. *)
Example sendNewsSummaries_two_calls :
  Sender.sendNewsSummaries configured strictTelegram
    (map longSummary [fedItem; btcItem]) 0
  = (2, Normal 2)
  /\ flat_map Sender.chunks
       (messagesOf (map longSummary [fedItem; btcItem]))
     = [Sender.header 0 2 ++ longSummary fedItem;
        Sender.header 1 2 ++ longSummary btcItem].
Proof. split; vm_compute; reflexivity. Qed.

(** A summary of 5000 newlines has no chunk: it is counted as sent with no
    call made. *)
Example sendNewsSummaries_newlines_only :
  Sender.chunks (repeat_str [NL] 5000) = []
  /\ Sender.sendNewsSummaries configured strictTelegram
       [repeat_str [NL] 5000] 0
     = (0, Normal 1).
Proof. split; vm_compute; reflexivity. Qed.

(** With the token not set, summaries to be sent one by one make
    [sendNewsSummaries] throw, and [sendSimpleMessage] answers [false], with
    no call made. *)
Example sendNewsSummaries_token_unset :
  Sender.sendNewsSummaries tokenUnset strictTelegram
    (map longSummary [fedItem; btcItem]) 0
  = (0, Throw Sender.TOKEN_UNSET)
  /\ Sender.sendSimpleMessage tokenUnset strictTelegram (js "hello") 0
     = (0, Normal false).
Proof. split; vm_compute; reflexivity. Qed.

(** ** The ledger between runs *)

Section LedgerUse.
Import Deduplicator Pipeline.

Lemma jsstring_eqb_eq (a b : jsstring) : jsstring_eqb a b = true <-> a = b.
Proof.
  unfold jsstring_eqb. destruct (list_eq_dec N.eq_dec a b); split;
    congruence.
Qed.

Lemma isNewsSent_spec (u : jsstring) (sentUrls : list jsstring) :
  isNewsSent u sentUrls = true <-> In u sentUrls.
Proof.
  unfold isNewsSent. rewrite existsb_exists. split.
  - intros (x & Hin & E). apply jsstring_eqb_eq in E. now subst.
  - intros Hin. exists u. split; [exact Hin|now apply jsstring_eqb_eq].
Qed.

Lemma urls_loadSentNews (now : Z) (f : store) (u : jsstring) :
  In u (urls (loadSentNews now f))
  <-> exists r, In r (storedRecords f) /\ valid now r = true /\ r_url r = u.
Proof.
  destruct f as [| |recs]; cbn [loadSentNews urls storedRecords].
  - split; [contradiction|]. intros (r & [] & _).
  - split; [contradiction|]. intros (r & [] & _).
  - rewrite in_map_iff. split.
    + intros (r & E & Hin). apply filter_In in Hin as [Hin Hv]. eauto.
    + intros (r & Hin & Hv & E). exists r. split; [exact E|].
      apply filter_In. now split.
Qed.

Lemma unsent_after_load (now : Z) (f : store)
    (news : list NewsItem) (item : NewsItem) :
  In item (filterUnsentNews news (urls (loadSentNews now f)))
  <-> In item news
      /\ ~ (exists r, In r (storedRecords f)
                      /\ valid now r = true /\ r_url r = url item).
Proof.
  unfold filterUnsentNews. rewrite filter_In, negb_true_iff.
  rewrite <- urls_loadSentNews, <- isNewsSent_spec.
  destruct (isNewsSent (url item) (urls (loadSentNews now f)));
    intuition congruence.
Qed.

Lemma filter_valid_new (now : Z) (news : list NewsItem) :
  filter (valid now) (map (recordOf now) news) = map (recordOf now) news.
Proof.
  induction news as [|item rest IH]; [reflexivity|].
  cbn [map filter]. now rewrite valid_recordOf, IH.
Qed.

Lemma saved_records (now : Z) (news : list NewsItem)
    (existing : list DedupRecord) :
  storedRecords (saveSentNews now news existing)
  = filter (valid now) existing ++ map (recordOf now) news.
Proof.
  cbn [saveSentNews storedRecords].
  change (map (fun item => {| r_url := url item; r_title := title item;
                              sentAt := Some now |}) news)
    with (map (recordOf now) news).
  now rewrite filter_app, filter_valid_new.
Qed.

(** X5: after the ledger is loaded, [filterUnsentNews] keeps exactly the
    items whose url is the url of no record of the store that is within the
    30 days; with no store, or one that cannot be read, it keeps them all. *)
Theorem filterUnsentNews_after_load (now : Z) (f : store)
    (news : list NewsItem) (item : NewsItem) :
  In item (filterUnsentNews news (urls (loadSentNews now f)))
  <-> In item news
      /\ ~ (exists r, In r (storedRecords f)
                      /\ valid now r = true /\ r_url r = url item).
Proof. apply unsent_after_load. Qed.

(** X6: [saveSentNews] writes the existing records that are within the 30
    days, in their order, followed by one record {url, title, sentAt = now}
    for every item of the news, in the order of the news. *)
Theorem saveSentNews_appends (now : Z) (news : list NewsItem)
    (existing : list DedupRecord) :
  storedRecords (saveSentNews now news existing)
  = filter (valid now) existing ++ map (recordOf now) news.
Proof. apply saved_records. Qed.

(** X7: after a run that ended by saving the ledger, a second run on the
    same scored news finds nothing to send, returns early and leaves the
    ledger as it is, whatever its environment, channel and summaries,
    provided the second load comes less than 30 days after the first save
    and every record of the store that was within the 30 days at the first
    load still is at the second load.  (The first run reads the clock twice:
    a record that is within the 30 days when the ledger is loaded and past
    them when it is saved is not written back.) *)
Theorem main_second_run_sends_nothing (env env' : Sender.Env)
    (chan chan' : Sender.channel) (d d' : disk)
    (loadNow saveNow loadNow' saveNow' : Z)
    (summarize summarize' : NewsItem -> jsstring)
    (scoredNews : list NewsItem) (f f1 : store) :
  main env chan d loadNow saveNow summarize scoredNews f = (f1, Exit0) ->
  (saveNow <= loadNow')%Z ->
  (loadNow' - saveNow < maxAge)%Z ->
  Forall (fun r => valid loadNow r = true -> valid loadNow' r = true)
    (storedRecords f) ->
  main env' chan' d' loadNow' saveNow' summarize' scoredNews f1
  = (f1, Returned).
Proof.
  unfold main at 1.
  destruct (filterUnsentNews scoredNews (urls (loadSentNews loadNow f)))
    as [|first rest] eqn:Eu; [discriminate|].
  destruct (Sender.sendNewsSummaries env chan
              (map summarize (first :: rest)) 0)
    as [n [sentCount|e]]; [|discriminate].
  destruct (d (saveSentNews saveNow (first :: rest)
                 (records (loadSentNews loadNow f)))) as [u|e];
    [|discriminate].
  intros [= <-] Hafter Hnew Hold.
  assert (Hlater : forall r, valid loadNow' r = true ->
                             valid saveNow r = true).
  { intros r Hv. apply valid_spec in Hv as (t & Et & Hlt).
    apply valid_spec. exists t. split; [exact Et|lia]. }
  assert (Hnone : filterUnsentNews scoredNews
                    (urls (loadSentNews loadNow'
                             (saveSentNews saveNow (first :: rest)
                                (records (loadSentNews loadNow f))))) = []).
  { destruct (filterUnsentNews scoredNews
                (urls (loadSentNews loadNow'
                         (saveSentNews saveNow (first :: rest)
                            (records (loadSentNews loadNow f))))))
      as [|item others] eqn:E2; [reflexivity|]. exfalso.
    assert (Hin2 : In item (item :: others)) by now left.
    rewrite <- E2 in Hin2.
    apply unsent_after_load in Hin2 as [Hin Hfresh].
    apply Hfresh. rewrite Forall_forall in Hold.
    rewrite saved_records.
    destruct (isNewsSent (url item) (urls (loadSentNews loadNow f))) eqn:Es.
    - apply isNewsSent_spec, urls_loadSentNews in Es
        as (r & Hr & Hv & Hu).
      assert (Hv' : valid loadNow' r = true) by now apply Hold.
      exists r. split; [|now split].
      apply in_or_app. left. apply filter_In. split; [|now apply Hlater].
      destruct f as [| |recs]; cbn [loadSentNews records storedRecords]
        in *; try contradiction.
      apply filter_In. now split.
    - assert (Hu : In item (first :: rest)).
      { rewrite <- Eu. apply filter_In. split; [exact Hin|].
        now rewrite Es. }
      exists (recordOf saveNow item). split.
      + apply in_or_app. right. now apply in_map.
      + split; [|reflexivity]. apply valid_spec. exists saveNow.
        split; [reflexivity|exact Hnew]. }
  unfold main. rewrite Hnone. reflexivity.
Qed.

(** X8: time only takes records away: what a load returns at an instant is
    among what a load of the same store returns at an earlier one. *)
Theorem loadSentNews_only_forgets (f : store) (now now' : Z)
    (r : DedupRecord) :
  (now <= now')%Z ->
  In r (records (loadSentNews now' f)) ->
  In r (records (loadSentNews now f)).
Proof.
  intros Hle. destruct f as [| |recs]; cbn [loadSentNews records]; auto.
  rewrite !filter_In. intros [Hin Hv]. split; [exact Hin|].
  apply valid_spec in Hv as (t & Et & Hlt). apply valid_spec.
  exists t. split; [exact Et|lia].
Qed.

End LedgerUse.

(** The theorem at a first run that finds the record of one item in the
    ledger, delivers the other one and saves a second after the load, and a
    second run a minute later. *)
Lemma main_second_run_sends_nothing_witness :
  Pipeline.main tokenUnset refusesFed diskFull 61000 62000 longSummary
    [fedItem; btcItem]
    (Deduplicator.Document [recordOf 0 fedItem; recordOf 1000 btcItem])
  = (Deduplicator.Document [recordOf 0 fedItem; recordOf 1000 btcItem],
     Pipeline.Returned).
Proof.
  apply (main_second_run_sends_nothing configured tokenUnset strictTelegram
           refusesFed accepting diskFull 0 1000 61000 62000 title
           longSummary [fedItem; btcItem]
           (Deduplicator.Document [recordOf 0 fedItem])).
  - vm_compute. reflexivity.
  - vm_compute. discriminate.
  - reflexivity.
  - repeat constructor.
Defined.

(** The theorem at a record sent at instant 0, loaded after a second and
    after two. *)
Lemma loadSentNews_only_forgets_witness :
  In (recordOf 0 btcItem)
     (Deduplicator.records
        (Deduplicator.loadSentNews 1000
           (Deduplicator.Document [recordOf 0 btcItem]))).
Proof.
  apply (loadSentNews_only_forgets
           (Deduplicator.Document [recordOf 0 btcItem]) 1000 2000).
  - vm_compute. discriminate.
  - vm_compute. left. reflexivity.
Defined.

(** ** The relevance filter as a whole *)

Section RelevanceUse.
Import AiFilter.
Context `{NumberParsing}.

(** X9: the batches of five do not show in the result: filtering a list is
    filtering its parts, one after the other. *)
Theorem filterByAI_app (a b : list (NewsItem * reply)) :
  filterByAI (a ++ b) = filterByAI a ++ filterByAI b.
Proof. rewrite !filterByAI_kept. apply flat_map_app. Qed.

Lemma filterByAI_In (news : list (NewsItem * reply))
    (item' : NewsItem) :
  In item' (filterByAI news)
  <-> exists item r judgment,
        In (item, r) news
        /\ judgeRelevance r = Normal judgment
        /\ truthy (relevant judgment) = true
        /\ item' = set_ai item (score judgment) (reason judgment).
Proof.
  rewrite filterByAI_kept, in_flat_map. split.
  - intros ([item r] & Hin & Hk). unfold kept in Hk. cbn [fst snd] in Hk.
    destruct (judgeRelevance_returns r) as [judgment E]. rewrite E in Hk.
    destruct (truthy (relevant judgment)) eqn:Et; [|contradiction].
    destruct Hk as [<-|[]]. exists item, r, judgment. auto.
  - intros (item & r & judgment & Hin & E & Et & ->).
    exists (item, r). split; [exact Hin|]. unfold kept. cbn [fst snd].
    rewrite E, Et. now left.
Qed.

(** X10: the items [filterByAI] returns are the items of the input whose
    judgment has a truthy [relevant], each as it was but for [aiScore], now
    the score of its judgment, and [aiReason], now the reason of its
    judgment; nothing else is returned. *)
Theorem filterByAI_membership (news : list (NewsItem * reply))
    (item' : NewsItem) :
  In item' (filterByAI news)
  <-> exists item r judgment,
        In (item, r) news
        /\ judgeRelevance r = Normal judgment
        /\ truthy (relevant judgment) = true
        /\ item' = {| title := title item; description := description item;
                      url := url item; publishedAt := publishedAt item;
                      source := source item;
                      keywordMatches := keywordMatches item;
                      aiScore := Some (score judgment);
                      aiReason := Some (reason judgment);
                      impact := impact item |}.
Proof. exact (filterByAI_In news item'). Qed.

(** X11: an item whose answer cannot be parsed is kept only when the
    fallback pattern finds a score of 6 or more in the text; without a score
    in the text it gets the score 5 and is dropped, unlike an item whose
    call failed. *)
Theorem filterByAI_unparsable_answer
    (before after : list (NewsItem * reply)) (item : NewsItem)
    (parseError : jsstring) (scoreMatch : option number) :
  filterByAI (before ++ (item, Answered (Throw parseError) scoreMatch)
                        :: after)
  = filterByAI before
    ++ match scoreMatch with
       | Some x =>
           if geb x (Fin 6)
           then [set_ai item (or (VNum x) (VNum (Fin 0)))
                             (VStr FORMAT_FALLBACK)]
           else []
       | None => []
       end
    ++ filterByAI after.
Proof.
  rewrite !filterByAI_kept, flat_map_app. f_equal.
  cbn [flat_map]. f_equal. unfold kept. cbn [fst snd].
  destruct scoreMatch as [x|]; [|reflexivity].
  cbn [judgeRelevance parseResult tryCatch get String.eqb Ascii.eqb
       Bool.eqb isDefined relevant score reason truthy].
  reflexivity.
Qed.

(** X12: when the parsed answer carries a boolean [relevant], that flag
    alone decides: the item is kept if it is [true] and dropped if it is
    [false], whatever the score. *)
Theorem filterByAI_flag_decides (before after : list (NewsItem * reply))
    (item : NewsItem) (result : object) (scoreMatch : option number)
    (b : bool) :
  get result "relevant" = VBool b ->
  filterByAI (before ++ (item, Answered (Normal result) scoreMatch) :: after)
  = filterByAI before
    ++ (if b
        then [set_ai item (or (get result "score") (VNum (Fin 0)))
                          (or (get result "reason") (VStr NO_REASON))]
        else [])
    ++ filterByAI after.
Proof.
  intros Eb. rewrite !filterByAI_kept, flat_map_app. f_equal.
  cbn [flat_map]. f_equal. unfold kept. cbn [fst snd].
  cbn [judgeRelevance parseResult tryCatch relevant score reason].
  rewrite Eb. cbn [isDefined truthy]. reflexivity.
Qed.

End RelevanceUse.

(** The theorem at an answer with the score 9 and [relevant: false]: the
    item is dropped. *)
Lemma filterByAI_flag_decides_witness :
  AiFilter.filterByAI (H := literalParsing)
    [(fedItem, Answered (Normal highButIrrelevant) None)]
  = [].
Proof.
  exact (@filterByAI_flag_decides literalParsing [] [] fedItem
           highButIrrelevant None false eq_refl).
Defined.

(** ** The validated impact *)

Section ImpactUse.
Import ImpactScorer.
Context `{NumberParsing}.

(** X13: a score field whose value, missing ones counting as 0, converts to
    a number other than [NaN] comes out of the validation within its range:
    the four sub-scores within 0..25 and the total within 0..100. *)
Theorem validate_within_ranges (result : object) :
  (forall key,
     In key ["policyStrength"; "expectationGap"; "timeUrgency";
             "cryptoRelevance"; "totalScore"] ->
     isNaN (ToNumber (or (get result key) (VNum (Fin 0)))) = false) ->
  within 0 25 (policyStrength (validate result))
  /\ within 0 25 (expectationGap (validate result))
  /\ within 0 25 (timeUrgency (validate result))
  /\ within 0 25 (cryptoRelevance (validate result))
  /\ within 0 100 (totalScore (validate result)).
Proof.
  intros Hnum.
  assert (Hclamp : forall hi key,
             (0 <= hi)%Q ->
             In key ["policyStrength"; "expectationGap"; "timeUrgency";
                     "cryptoRelevance"; "totalScore"] ->
             within 0 hi (clamp hi (get result key))).
  { intros hi key Hhi Hkey.
    destruct (clamp_range hi (get result key) Hhi) as [[E _]|Hin];
      [|exact Hin].
    specialize (Hnum key Hkey). rewrite E in Hnum. discriminate. }
  cbn [validate policyStrength expectationGap timeUrgency cryptoRelevance
       totalScore].
  repeat split; apply Hclamp; try (cbn [In]; tauto); discriminate.
Qed.

Lemma or_truthy (v d : jsval) : truthy d = true -> truthy (or v d) = true.
Proof. intros Hd. unfold or. now destruct (truthy v) eqn:E. Qed.

(** X14: the level, the direction and the reasoning of a validated impact
    are never missing or empty: what the answer lacks is replaced by
    '中等影响', '中性' and '无理由说明'. *)
Theorem validate_labels_present (result : object) :
  truthy (level (validate result)) = true
  /\ truthy (direction (validate result)) = true
  /\ truthy (reasoning (validate result)) = true
  /\ (truthy (get result "level") = false ->
      level (validate result) = VStr LEVEL_MEDIUM)
  /\ (truthy (get result "direction") = false ->
      direction (validate result) = VStr DIRECTION_NEUTRAL)
  /\ (truthy (get result "reasoning") = false ->
      reasoning (validate result) = VStr NO_REASONING).
Proof.
  cbn [validate level direction reasoning].
  repeat split; try (apply or_truthy; reflexivity);
    intros E; unfold or; now rewrite E.
Qed.

Lemma scoreItem_impact (call : NewsItem * reply) :
  exists i,
    impact (scoreItem call) = Some i
    /\ url (scoreItem call) = url (fst call)
    /\ (isNaN (totalScore i) = true \/ within 0 100 (totalScore i)).
Proof.
  unfold scoreItem, scoreImpact.
  destruct (snd call) as [message|[result|parseError] scoreMatch];
    cbn [tryCatch set_impact impact url].
  - eexists. split; [reflexivity|]. split; [reflexivity|]. right.
    exists 40%Q. repeat split; discriminate.
  - eexists. split; [reflexivity|]. split; [reflexivity|].
    cbn [validate totalScore].
    destruct (clamp_range 100 (get result "totalScore")) as [[_ E]|Hin];
      [discriminate| |].
    + left. now rewrite E.
    + now right.
  - eexists. split; [reflexivity|]. split; [reflexivity|]. right.
    exists 40%Q. repeat split; discriminate.
Qed.

(** X15: [scoreAllNewsImpact] returns as many items as it is given, with the
    same urls, and every one of them carries an impact whose total is within
    0..100 or is [NaN]; no item is lost to a failing oracle. *)
Theorem scoreAllNewsImpact_scores_every_item
    (news : list (NewsItem * reply)) :
  length (scoreAllNewsImpact news) = length news
  /\ Permutation (map url (scoreAllNewsImpact news))
       (map (fun call => url (fst call)) news)
  /\ Forall (fun item =>
               exists i,
                 impact item = Some i
                 /\ (isNaN (totalScore i) = true
                     \/ within 0 100 (totalScore i)))
            (scoreAllNewsImpact news).
Proof.
  assert (E : scoreAllNewsImpact news = sort byImpact (map scoreItem news))
    by (destruct news; reflexivity).
  rewrite E.
  pose proof (sort_perm NewsItem byImpact (map scoreItem news)) as Hperm.
  split; [|split].
  - rewrite <- (Permutation_length Hperm). apply length_map.
  - rewrite <- (Permutation_map url Hperm), map_map.
    assert (Eu : forall l : list (NewsItem * reply),
               map (fun call => url (scoreItem call)) l
               = map (fun call => url (fst call)) l).
    { induction l as [|call l IH]; [reflexivity|]. cbn [map].
      destruct (scoreItem_impact call) as (i & _ & Ecall & _).
      now rewrite Ecall, IH. }
    now rewrite Eu.
  - apply Forall_forall. intros item Hin.
    apply (Permutation_in _ (Permutation_sym Hperm)) in Hin.
    apply in_map_iff in Hin as (call & <- & _).
    destruct (scoreItem_impact call) as (i & Ei & _ & Hi). eauto.
Qed.

End ImpactUse.

(** The theorem at an answer with a negative number, a number in a string,
    a fraction, a total above 100 and a field that is missing. *)
Lemma validate_within_ranges_witness :
  within 0 25
    (policyStrength (ImpactScorer.validate (H := literalParsing)
                       outOfRangeResult))
  /\ within 0 25
       (expectationGap (ImpactScorer.validate (H := literalParsing)
                          outOfRangeResult))
  /\ within 0 25
       (timeUrgency (ImpactScorer.validate (H := literalParsing)
                       outOfRangeResult))
  /\ within 0 25
       (cryptoRelevance (ImpactScorer.validate (H := literalParsing)
                           outOfRangeResult))
  /\ within 0 100
       (totalScore (ImpactScorer.validate (H := literalParsing)
                      outOfRangeResult)).
Proof.
  apply (@validate_within_ranges literalParsing outOfRangeResult).
  intros key [<-|[<-|[<-|[<-|[<-|[]]]]]]; reflexivity.
Defined.

(** ** The keyword prefilter, applied again *)

Section KeywordsUse.
Import KeywordFilter.
Context `{CaseMapping}.

(** X16: [filterByKeywords] applied to its own result returns it unchanged:
    what was kept is kept again, with the same match record. *)
Theorem filterByKeywords_idempotent (news : list NewsItem) :
  filterByKeywords (filterByKeywords news) = filterByKeywords news.
Proof.
  induction news as [|item rest IH]; [reflexivity|].
  cbn [filterByKeywords].
  destruct (2 <=? categoryCount
              (countCategoryMatches (title item) (description item)))
    eqn:E; [|exact IH].
  cbn [filterByKeywords set_keywordMatches title description].
  rewrite E, IH. reflexivity.
Qed.

End KeywordsUse.

(** ** The run as a whole *)

Section WholeRun.
Import Deduplicator Pipeline.
Context `{CaseMapping} `{NumberParsing}.

Lemma afterLoad_records (d : disk) (now : Z) (f : store) (r : DedupRecord) :
  In r (storedRecords (afterLoad d f (loadSentNews now f))) ->
  In r (storedRecords f).
Proof.
  destruct f; cbn [afterLoad loadSentNews file storedRecords]; auto.
  now destruct (d (Document [])).
Qed.

Lemma loaded_records (now : Z) (f : store) (r : DedupRecord) :
  In r (records (loadSentNews now f)) -> In r (storedRecords f).
Proof.
  destruct f as [| |recs]; cbn [loadSentNews records storedRecords]; auto.
  intros Hin. now apply filter_In in Hin.
Qed.

(** A record of the store after steps 5 to 8 was there before or is the
    record of an unsent item. *)
Lemma main_records (env : Sender.Env) (chan : Sender.channel) (d : disk)
    (loadNow saveNow : Z) (summarize : NewsItem -> jsstring)
    (scoredNews : list NewsItem) (f : store) (r : DedupRecord) :
  In r (storedRecords
          (fst (main env chan d loadNow saveNow summarize scoredNews f))) ->
  In r (storedRecords f)
  \/ exists item,
       In item (filterUnsentNews scoredNews (urls (loadSentNews loadNow f)))
       /\ r = recordOf saveNow item.
Proof.
  unfold main.
  destruct (filterUnsentNews scoredNews (urls (loadSentNews loadNow f)))
    as [|first rest] eqn:Eu.
  - cbn [fst]. intros Hin. left. now apply afterLoad_records in Hin.
  - destruct (Sender.sendNewsSummaries env chan
                (map summarize (first :: rest)) 0) as [n [sentCount|e]].
    + destruct (d (saveSentNews saveNow (first :: rest)
                     (records (loadSentNews loadNow f)))) as [u|e];
        cbn [fst].
      * rewrite saved_records. intros Hin.
        apply in_app_or in Hin as [Hin|Hin].
        -- left. apply filter_In in Hin as [Hin _].
           now apply loaded_records in Hin.
        -- right. apply in_map_iff in Hin as (item & <- & Hin). eauto.
      * intros Hin. left. now apply afterLoad_records in Hin.
    + cbn [fst]. intros Hin. left. now apply afterLoad_records in Hin.
Qed.

Lemma scoreItem_fields (call : NewsItem * reply) :
  url (ImpactScorer.scoreItem call) = url (fst call)
  /\ title (ImpactScorer.scoreItem call) = title (fst call).
Proof.
  unfold ImpactScorer.scoreItem.
  destruct (ImpactScorer.scoreImpact (snd call)); split; reflexivity.
Qed.

Lemma scored_item_origin (news : list (NewsItem * reply)) (item : NewsItem) :
  In item (ImpactScorer.scoreAllNewsImpact news) ->
  exists call,
    In call news /\ url item = url (fst call)
    /\ title item = title (fst call).
Proof.
  assert (E : ImpactScorer.scoreAllNewsImpact news
              = sort ImpactScorer.byImpact
                  (map ImpactScorer.scoreItem news))
    by (destruct news; reflexivity).
  rewrite E. intros Hin.
  apply (Permutation_in _ (Permutation_sym (sort_perm _ _ _))) in Hin.
  apply in_map_iff in Hin as (call & <- & Hin).
  exists call. split; [exact Hin|]. apply scoreItem_fields.
Qed.

(** X17: whatever the environment, the oracle, the channel, the file system
    and the store, a record that a run adds to the ledger is the record
    {url, title, sentAt} of a fetched item, made when the ledger is saved;
    at least two keyword categories match the item's title, a space and its
    description; the item was judged relevant; and no record of the store
    with its url was within the 30 days when the ledger was loaded.  Every
    other record of the store after the run was in it before. *)
Theorem run_records_provenance (env : Sender.Env) (chan : Sender.channel)
    (d : disk) (loadNow saveNow : Z)
    (relevance impactAnswer : NewsItem -> reply)
    (summarize : NewsItem -> jsstring) (allNews : list NewsItem)
    (f : store) (r : DedupRecord) :
  In r (storedRecords
          (fst (run env chan d loadNow saveNow relevance impactAnswer
                  summarize allNews f))) ->
  In r (storedRecords f)
  \/ exists item judgment,
       In item allNews
       /\ r = recordOf saveNow item
       /\ atLeastTwo
            (categoryMatches KeywordFilter.KEYWORDS_crypto
               (title item ++ js " " ++ description item))
            (categoryMatches KeywordFilter.KEYWORDS_fed
               (title item ++ js " " ++ description item))
            (categoryMatches KeywordFilter.KEYWORDS_macro
               (title item ++ js " " ++ description item))
       /\ AiFilter.judgeRelevance
            (relevance
               (set_keywordMatches item
                  (KeywordFilter.countCategoryMatches
                     (title item) (description item))))
          = Normal judgment
       /\ truthy (AiFilter.relevant judgment) = true
       /\ ~ (exists old, In old (storedRecords f)
                         /\ valid loadNow old = true
                         /\ r_url old = url item).
Proof.
  unfold run.
  destruct allNews as [|first others] eqn:Eall; [now left|].
  rewrite <- Eall. clear Eall.
  destruct (KeywordFilter.filterByKeywords allNews)
    as [|kw kws] eqn:Ekw; [now left|].
  rewrite <- Ekw.
  destruct (AiFilter.filterByAI
              (map (fun item => (item, relevance item))
                 (KeywordFilter.filterByKeywords allNews)))
    as [|ai ais] eqn:Eai; [now left|].
  rewrite <- Eai. intros Hin.
  apply main_records in Hin as [Hold|(scored & Hunsent & ->)];
    [now left|right].
  apply unsent_after_load in Hunsent as [Hscored Hfresh].
  apply scored_item_origin in Hscored as ([aiItem answer] & Hcall & Eu & Et).
  cbn [fst] in Eu, Et.
  apply in_map_iff in Hcall as (aiItem' & [= -> _] & Hai).
  apply filterByAI_In in Hai
    as (kwItem & rel & judgment & Hpair & Ej & Etruthy & ->).
  apply in_map_iff in Hpair as (kwItem' & [= -> <-] & Hkw).
  rewrite filterByKeywords_filter in Hkw.
  apply in_map_iff in Hkw as (item & <- & Hkept).
  apply filter_In in Hkept as [Hitem Hkept].
  exists item, judgment. cbn [set_ai set_keywordMatches url title] in Eu, Et.
  split; [exact Hitem|]. split.
  { unfold recordOf. now rewrite Eu, Et. }
  split; [now apply retained_spec|].
  split; [exact Ej|]. split; [exact Etruthy|].
  now rewrite <- Eu.
Qed.

Lemma filterByAI_none (relevance : NewsItem -> reply)
    (news : list NewsItem) :
  (forall item, In item news -> kept (item, relevance item) = []) ->
  AiFilter.filterByAI (map (fun item => (item, relevance item)) news) = [].
Proof.
  rewrite filterByAI_kept.
  induction news as [|item rest IH]; intros Hnone; [reflexivity|].
  cbn [map flat_map]. rewrite (Hnone item) by now left.
  apply IH. intros item' Hin. apply Hnone. now right.
Qed.

(** X18: when no fetched item passes both the keyword filter and the
    relevance filter, the run returns before the ledger is read: the store
    is left exactly as it was, a missing one is not even created. *)
Theorem run_stops_before_ledger (env : Sender.Env) (chan : Sender.channel)
    (d : disk) (loadNow saveNow : Z)
    (relevance impactAnswer : NewsItem -> reply)
    (summarize : NewsItem -> jsstring) (allNews : list NewsItem)
    (f : store) :
  (forall item, In item (KeywordFilter.filterByKeywords allNews) ->
                kept (item, relevance item) = []) ->
  run env chan d loadNow saveNow relevance impactAnswer summarize allNews f
  = (f, Returned).
Proof.
  intros Hnone. unfold run.
  destruct allNews as [|first others] eqn:Eall; [reflexivity|].
  rewrite <- Eall in *. clear Eall.
  destruct (KeywordFilter.filterByKeywords allNews)
    as [|kw kws] eqn:Ekw; [reflexivity|].
  rewrite <- Ekw in *.
  now rewrite (filterByAI_none relevance _ Hnone).
Qed.

End WholeRun.

(** The theorem at a run on a weather item and an item about Bitcoin and
    the Fed, with an oracle whose relevance call fails, a fresh ledger and a
    channel that takes what Telegram takes. *)
Lemma run_records_provenance_witness :
  In (recordOf 2000 ratesItem) (storedRecords Deduplicator.Absent)
  \/ exists item judgment,
       In item [weatherItem; ratesItem]
       /\ recordOf 2000 ratesItem = recordOf 2000 item
       /\ atLeastTwo
            (categoryMatches (H := asciiCase)
               KeywordFilter.KEYWORDS_crypto
               (title item ++ js " " ++ description item))
            (categoryMatches (H := asciiCase)
               KeywordFilter.KEYWORDS_fed
               (title item ++ js " " ++ description item))
            (categoryMatches (H := asciiCase)
               KeywordFilter.KEYWORDS_macro
               (title item ++ js " " ++ description item))
       /\ AiFilter.judgeRelevance (H := literalParsing)
            ((fun _ => Failed (js "timeout"))
               (set_keywordMatches item
                  (KeywordFilter.countCategoryMatches (H := asciiCase)
                     (title item) (description item))))
          = Normal judgment
       /\ truthy (AiFilter.relevant judgment) = true
       /\ ~ (exists old, In old (storedRecords Deduplicator.Absent)
                         /\ Deduplicator.valid 1000 old = true
                         /\ Deduplicator.r_url old = url item).
Proof.
  apply (@run_records_provenance asciiCase literalParsing configured
           strictTelegram accepting 1000 2000
           (fun _ => Failed (js "timeout")) (fun _ => totalOnly 50)
           title [weatherItem; ratesItem] Deduplicator.Absent).
  vm_compute. left. reflexivity.
Defined.

(** The theorem at a run on a weather item, which the keyword filter drops,
    and an item about Bitcoin and the Fed, which passes it and which the
    oracle then gives the score 9 and [relevant: false]; there is no ledger
    file, and none after the run either. *)
Lemma run_stops_before_ledger_witness :
  Pipeline.run (H := asciiCase) (H0 := literalParsing) configured refusesFed
    accepting 1000 2000
    (fun _ => Answered (Normal highButIrrelevant) None)
    (fun _ => totalOnly 50) title
    [weatherItem; ratesItem] Deduplicator.Absent
  = (Deduplicator.Absent, Pipeline.Returned).
Proof.
  apply (@run_stops_before_ledger asciiCase literalParsing).
  intros item Hin.
  assert (Ekw : KeywordFilter.filterByKeywords (H := asciiCase)
                  [weatherItem; ratesItem]
                = [set_keywordMatches ratesItem
                     {| crypto := true; fed := true; macro := false;
                        categoryCount := 2 |}])
    by (vm_compute; reflexivity).
  rewrite Ekw in Hin. destruct Hin as [<-|[]]. reflexivity.
Defined.

(** X26: when [sendNewsSummaries] throws, which it does when the only
    summary or the merged message cannot be delivered, the run exits with 1
    and [saveSentNews] is not called: the store is as the load left it and
    no item of the run is recorded. *)
Theorem main_failed_delivery_keeps_ledger (env : Sender.Env)
    (chan : Sender.channel) (d : Deduplicator.disk) (loadNow saveNow : Z)
    (summarize : NewsItem -> jsstring) (scoredNews : list NewsItem)
    (f : Deduplicator.store) (n : nat) (message : jsstring) :
  Sender.sendNewsSummaries env chan
    (map summarize
       (Deduplicator.filterUnsentNews scoredNews
          (Deduplicator.urls (Deduplicator.loadSentNews loadNow f)))) 0
  = (n, Throw message) ->
  Pipeline.main env chan d loadNow saveNow summarize scoredNews f
  = (Deduplicator.afterLoad d f (Deduplicator.loadSentNews loadNow f),
     Pipeline.Exit1)
  /\ forall r,
       In r (storedRecords
               (fst (Pipeline.main env chan d loadNow saveNow summarize
                       scoredNews f))) ->
       In r (storedRecords f).
Proof.
  intros E.
  pose proof (main_aborts_without_commit env chan d loadNow saveNow
                summarize scoredNews f n message E) as Emain.
  split; [exact Emain|].
  rewrite Emain. cbn [fst]. intros r.
  destruct f; cbn [Deduplicator.afterLoad Deduplicator.loadSentNews
                   Deduplicator.file storedRecords]; auto.
  now destruct (d (Deduplicator.Document [])).
Qed.

(** The theorem at one unsent item whose message the channel refuses three
    times, with no ledger file: the ledger the load creates stays empty. *)
Lemma main_failed_delivery_keeps_ledger_witness :
  Pipeline.main configured refusesFed accepting 1000 2000 longSummary
    [fedItem] Deduplicator.Absent
  = (Deduplicator.Document [], Pipeline.Exit1)
  /\ forall r,
       In r (storedRecords
               (fst (Pipeline.main configured refusesFed accepting 1000 2000
                       longSummary [fedItem] Deduplicator.Absent))) ->
       In r (storedRecords Deduplicator.Absent).
Proof.
  apply (main_failed_delivery_keeps_ledger configured refusesFed accepting
           1000 2000 longSummary [fedItem] Deduplicator.Absent 3
           (js "ETELEGRAM")).
  vm_compute. reflexivity.
Defined.

(** The run of the witness leaves the empty ledger that the load has
    written.  When the file system refuses the document of [saveSentNews],
    the run exits with 1 as well, after everything was sent, and no record
    is kept; and with the token not set nothing is sent and nothing
    recorded. *)
Example main_exits_with_1 :
  Pipeline.main configured refusesFed accepting 1000 2000 longSummary
    [fedItem] Deduplicator.Absent
  = (Deduplicator.Document [], Pipeline.Exit1)
  /\ Pipeline.main configured strictTelegram diskFull 1000 2000 title
       [fedItem; btcItem] Deduplicator.Absent
     = (Deduplicator.Absent, Pipeline.Exit1)
  /\ Pipeline.main tokenUnset strictTelegram accepting 1000 2000 longSummary
       [fedItem; btcItem] Deduplicator.Absent
     = (Deduplicator.Document [], Pipeline.Exit1).
Proof. repeat split; vm_compute; reflexivity. Qed.

(** ** The summaries *)

Section Summaries.
Import AiSummarizer.
Context `{Formatting}.

Lemma summary_shape (item : NewsItem) (r : summaryReply) :
  exists body,
    summarizeNews item r
    = Normal (HEADLINE ++ title item ++ CLOCK ++ body ++ LINK ++ url item).
Proof.
  unfold summarizeNews.
  destruct r as [message|content [result|parseError]]; cbn [tryCatch].
  - exists (toLocaleString (publishedAt item) ++ [NL] ++ impactSection item
            ++ CORE_POINTS
            ++ (if nonempty (description item) then description item
                else NO_SUMMARY)
            ++ MARKET_IMPACT ++ NEEDS_ANALYSIS).
    now rewrite <- !app_assoc.
  - exists (toLocaleStringMinutes (publishedAt item) ++ [NL]
            ++ impactSection item ++ CORE_POINTS
            ++ ToString (or (get result "summary") (VStr NO_SUMMARY))
            ++ MARKET_IMPACT
            ++ ToString (or (get result "marketImpact")
                            (VStr NO_IMPACT_ANALYSIS))).
    now rewrite <- !app_assoc.
  - exists (toLocaleStringMinutes (publishedAt item) ++ [NL]
            ++ impactSection item ++ CORE_POINTS
            ++ ToString (or (get (rawResult content) "summary")
                            (VStr NO_SUMMARY))
            ++ MARKET_IMPACT
            ++ ToString (or (get (rawResult content) "marketImpact")
                            (VStr NO_IMPACT_ANALYSIS))).
    now rewrite <- !app_assoc.
Qed.


Lemma summarizeLoop_map (news : list (NewsItem * summaryReply))
    (summaries : list jsstring) :
  summarizeLoop news summaries = summaries ++ map summaryOf news.
Proof.
  revert summaries. induction news as [|call rest IH]; intros summaries;
    cbn [summarizeLoop map].
  - now rewrite app_nil_r.
  - now rewrite IH, <- app_assoc.
Qed.

(** X20: [summarizeAllNews] returns one summary for every item, in the order
    of the items, each the text [summarizeNews] returns for it and none
    empty; the fallback of its own [catch] is never used. *)
Theorem summarizeAllNews_one_per_item
    (news : list (NewsItem * summaryReply)) :
  Forall2 (fun call summary =>
             summarizeNews (fst call) (snd call) = Normal summary
             /\ summary <> [])
          news (summarizeAllNews news).
Proof.
  assert (E : summarizeAllNews news = map summaryOf news).
  { destruct news; [reflexivity|]. unfold summarizeAllNews.
    now rewrite summarizeLoop_map. }
  rewrite E. induction news as [|call rest IH]; cbn [map]; constructor.
  - unfold summaryOf.
    destruct (summary_shape (fst call) (snd call)) as [body ->].
    split; [reflexivity|discriminate].
  - apply IH. destruct rest; [reflexivity|].
    unfold summarizeAllNews. now rewrite summarizeLoop_map.
Qed.

End Summaries.

(** ** The fetchers *)

Section Fetchers.

Lemma fetchRSSFeed_returns (now : Z) (source : Source)
    (feed : completion (option (list RssFetcher.FeedItem))) :
  RssFetcher.fetchRSSFeed now source feed
  = Normal match feed with
           | Normal (Some items) => map (RssFetcher.toNews now source) items
           | _ => []
           end.
Proof. destruct feed as [[[|item items]|]|message]; reflexivity. Qed.

Lemma fetchAllRSSFeeds_contributions (now : Z)
    (sources : list (Source * completion (option (list RssFetcher.FeedItem)))) :
  RssFetcher.fetchAllRSSFeeds now sources
  = flat_map (rssContribution now) sources.
Proof.
  unfold RssFetcher.fetchAllRSSFeeds.
  assert (E : forall l,
             flat_map (fun result : settled (list FetchedNews) =>
                         match result with
                         | Fulfilled value => value
                         | Rejected _ => []
                         end)
               (filter (fun result : settled (list FetchedNews) =>
                          match result with
                          | Fulfilled _ => true
                          | Rejected _ => false
                          end)
                  (map (fun s => settle (RssFetcher.fetchRSSFeed now
                                           (fst s) (snd s)))
                       (filter (fun s => s_enabled (fst s)) l)))
             = flat_map (rssContribution now) l).
  { induction l as [|s l IH]; [reflexivity|].
    cbn [filter flat_map]. unfold rssContribution at 1.
    destruct (s_enabled (fst s)); [|exact IH].
    cbn [map]. rewrite fetchRSSFeed_returns. cbn [settle filter flat_map].
    now rewrite IH. }
  rewrite <- E.
  destruct (filter (fun s => s_enabled (fst s)) sources); reflexivity.
Qed.

(** X21: a source that is switched off, whose fetch throws or whose feed has
    no item adds nothing to the news of [fetchAllRSSFeeds] and takes nothing
    away: the result is that of the sources before it followed by that of
    the sources after it. *)
Theorem fetchAllRSSFeeds_isolates_failures (now : Z)
    (before after :
       list (Source * completion (option (list RssFetcher.FeedItem))))
    (source : Source)
    (feed : completion (option (list RssFetcher.FeedItem))) :
  s_enabled source = false
  \/ (exists message, feed = Throw message)
  \/ feed = Normal None
  \/ feed = Normal (Some []) ->
  RssFetcher.fetchAllRSSFeeds now (before ++ (source, feed) :: after)
  = RssFetcher.fetchAllRSSFeeds now before
    ++ RssFetcher.fetchAllRSSFeeds now after.
Proof.
  intros Hout. rewrite !fetchAllRSSFeeds_contributions, flat_map_app.
  f_equal. cbn [flat_map].
  assert (E : rssContribution now (source, feed) = []).
  { unfold rssContribution. cbn [fst snd].
    destruct Hout as [->|[[message ->]|[->| ->]]]; [reflexivity| | |];
      now destruct (s_enabled source). }
  now rewrite E.
Qed.

(** X22: every record [fetchAllRSSFeeds] returns is built from an item of
    the feed of an enabled source: it bears the name of that source and the
    type rss; its url is the item's link or, without one, its guid, and ''
    without either; its title and description are strings, '' for what the
    feed lacks. *)
Theorem fetchAllRSSFeeds_records (now : Z)
    (sources : list (Source * completion (option (list RssFetcher.FeedItem))))
    (n : FetchedNews) :
  In n (RssFetcher.fetchAllRSSFeeds now sources)
  <-> exists source items item,
        In (source, Normal (Some items)) sources
        /\ s_enabled source = true
        /\ In item items
        /\ n = {| n_title := orEmpty (RssFetcher.fi_title item);
                  n_description :=
                    orEmpty
                      (orElse (RssFetcher.fi_contentSnippet item)
                         (orElse (RssFetcher.fi_content item)
                                 (RssFetcher.fi_summary item)));
                  n_url :=
                    orEmpty (orElse (RssFetcher.fi_link item)
                                    (RssFetcher.fi_guid item));
                  n_publishedAt := n_publishedAt
                                     (RssFetcher.toNews now source item);
                  n_source := s_name source;
                  n_type := rss |}.
Proof.
  rewrite fetchAllRSSFeeds_contributions, in_flat_map. split.
  - intros ([source feed] & Hin & Hn). unfold rssContribution in Hn.
    cbn [fst snd] in Hn. destruct (s_enabled source) eqn:Een;
      [|contradiction].
    destruct feed as [[items|]|message]; try contradiction.
    apply in_map_iff in Hn as (item & <- & Hitem).
    exists source, items, item. repeat split; auto.
  - intros (source & items & item & Hin & Een & Hitem & ->).
    exists (source, Normal (Some items)). split; [exact Hin|].
    unfold rssContribution. cbn [fst snd]. rewrite Een.
    apply in_map_iff. exists item. split; [reflexivity|exact Hitem].
Qed.

(** X23: the date of an RSS record is the instant of the fetch when the item
    has no [pubDate], and the parsed date otherwise; it is an invalid date
    exactly when the item has a [pubDate] that does not parse: for RSS
    there is no fallback to the current time. *)
Theorem toNews_publishedAt (now : Z) (source : Source)
    (item : RssFetcher.FeedItem) :
  (n_publishedAt (RssFetcher.toNews now source item) = None
   <-> (exists pubDate,
          RssFetcher.fi_pubDate item = Some pubDate /\ pubDate <> []
          /\ RssFetcher.fi_pubTime item = None))
  /\ ((RssFetcher.fi_pubDate item = None
       \/ RssFetcher.fi_pubDate item = Some []) ->
      n_publishedAt (RssFetcher.toNews now source item) = Some now).
Proof.
  unfold RssFetcher.toNews. cbn [n_publishedAt]. unfold orElse.
  destruct (RssFetcher.fi_pubDate item) as [[|c pubDate]|];
    cbn [nonempty].
  - split; [|reflexivity]. split; [discriminate|].
    intros (d & [= <-] & Hne & _). contradiction.
  - split.
    + split.
      * intros E. exists (c :: pubDate). repeat split; auto. discriminate.
      * intros (d & _ & _ & E). exact E.
    + intros [E|E]; discriminate.
  - split; [|reflexivity]. split; [discriminate|].
    intros (d & E & _). discriminate.
Qed.

Lemma eachElement_scraped (now : Z) (source : Source)
    (news news' : list FetchedNews) (element : WebScraper.Element) :
  WebScraper.eachElement now source news element = Normal news' ->
  news' = news
  \/ exists n, news' = news ++ [n] /\ scrapedFrom now source element n.
Proof.
  unfold WebScraper.eachElement.
  destruct (nonempty (WebScraper.e_title element)) eqn:Et; cbn [andb];
    [|intros [= <-]; now left].
  destruct (nonempty (orEmpty (WebScraper.e_href element))) eqn:Eu;
    [|intros [= <-]; now left].
  assert (Hhref : exists href,
             WebScraper.e_href element = Some href /\ href <> []
             /\ orEmpty (WebScraper.e_href element) = href).
  { destruct (WebScraper.e_href element) as [[|c href]|];
      try discriminate.
    exists (c :: href). repeat split. discriminate. }
  destruct Hhref as (href & Eh & Hne & Eo). rewrite Eo.
  destruct (startsWith href (js "http")) eqn:Es.
  - intros [= <-]. right. eexists. split; [reflexivity|].
    unfold scrapedFrom. cbn [n_title n_description n_url n_publishedAt
                             n_source n_type].
    split; [reflexivity|]. split; [now apply nonempty_true|].
    split; [reflexivity|]. split.
    { exists href. rewrite Es. now repeat split. }
    split; [|now split].
    unfold WebScraper.parseDate.
    destruct (WebScraper.e_dateText element);
      destruct (WebScraper.e_dateTime element); reflexivity.
  - destruct (WebScraper.e_resolved element) as [fullUrl|message] eqn:Er;
      [|discriminate].
    intros [= <-]. right. eexists. split; [reflexivity|].
    unfold scrapedFrom. cbn [n_title n_description n_url n_publishedAt
                             n_source n_type].
    split; [reflexivity|]. split; [now apply nonempty_true|].
    split; [reflexivity|]. split.
    { exists href. rewrite Es. now repeat split. }
    split; [|now split].
    unfold WebScraper.parseDate.
    destruct (WebScraper.e_dateText element);
      destruct (WebScraper.e_dateTime element); reflexivity.
Qed.

Lemma each_scraped (now : Z) (source : Source)
    (elements : list WebScraper.Element) :
  forall news news' n,
    WebScraper.each now source elements news = Normal news' ->
    In n news' ->
    In n news
    \/ exists element,
         In element elements /\ scrapedFrom now source element n.
Proof.
  induction elements as [|element rest IH]; intros news news' n;
    cbn [WebScraper.each].
  - intros [= <-] Hin. now left.
  - destruct (WebScraper.eachElement now source news element)
      as [news1|message] eqn:E; [|discriminate].
    intros Erest Hin.
    destruct (IH _ _ _ Erest Hin) as [Hin1|(e & He & Hs)].
    + apply eachElement_scraped in E as [->|(n1 & -> & Hs)];
        [now left|].
      apply in_app_or in Hin1 as [Hin1|[<-|[]]]; [now left|].
      right. exists element. split; [now left|exact Hs].
    + right. exists e. split; [now right|exact Hs].
Qed.

Lemma scrapeWebPage_returns (now : Z) (source : Source)
    (page : completion (list WebScraper.Element)) :
  exists news,
    WebScraper.scrapeWebPage now source page = Normal news
    /\ forall n, In n news ->
         exists elements element,
           page = Normal elements /\ In element elements
           /\ scrapedFrom now source element n.
Proof.
  unfold WebScraper.scrapeWebPage.
  destruct page as [[|element rest]|message]; cbn [tryCatch].
  - exists []. split; [reflexivity|]. intros n [].
  - destruct (WebScraper.each now source (element :: rest) [])
      as [news|message] eqn:E.
    + exists news. split; [reflexivity|]. intros n Hin.
      destruct (each_scraped now source _ _ _ n E Hin)
        as [[]|(e & He & Hs)].
      exists (element :: rest), e.
      split; [reflexivity|]. split; assumption.
    + exists []. split; [reflexivity|]. intros n [].
  - exists []. split; [reflexivity|]. intros n [].
Qed.

(** X24: every record [scrapeAllWebPages] returns is the record of an
    element found on the page of an enabled source: it has the title of the
    element, which is not empty, its description and its link (resolved
    against the page unless it starts with 'http'), the name of the source
    and the type web; its date is valid: the date the element shows when it
    shows one that parses, and the instant of the scrape when it shows none
    or one that does not parse.  And an element without title or without
    link adds no record to those of its page. *)
Theorem scrapeAllWebPages_records (now : Z)
    (sources : list (Source * completion (list WebScraper.Element))) :
  (forall n, In n (WebScraper.scrapeAllWebPages now sources) ->
     exists source elements element,
       In (source, Normal elements) sources
       /\ s_enabled source = true
       /\ In element elements
       /\ scrapedFrom now source element n)
  /\ forall source news element,
       WebScraper.e_title element = []
       \/ WebScraper.e_href element = None
       \/ WebScraper.e_href element = Some [] ->
       WebScraper.eachElement now source news element = Normal news.
Proof.
  split.
  2: { intros source news element Hskip. unfold WebScraper.eachElement.
       destruct Hskip as [E|[E|E]]; rewrite E; cbn [nonempty andb orEmpty
         orElse]; [reflexivity| |];
         now destruct (nonempty (WebScraper.e_title element)). }
  intros n. unfold WebScraper.scrapeAllWebPages.
  assert (Hall : forall l,
             In n (flat_map
                     (fun result : settled (list FetchedNews) =>
                        match result with
                        | Fulfilled value => value
                        | Rejected _ => []
                        end)
                     (filter
                        (fun result : settled (list FetchedNews) =>
                           match result with
                           | Fulfilled _ => true
                           | Rejected _ => false
                           end)
                        (map (fun s => settle (WebScraper.scrapeWebPage now
                                                 (fst s) (snd s))) l))) ->
             exists s elements element,
               In s l /\ snd s = Normal elements /\ In element elements
               /\ scrapedFrom now (fst s) element n).
  { induction l as [|s l IH]; [intros []|]. cbn [map].
    destruct (scrapeWebPage_returns now (fst s) (snd s))
      as (news & -> & Hn).
    cbn [settle filter flat_map]. intros Hin.
    apply in_app_or in Hin as [Hin|Hin].
    - destruct (Hn n Hin) as (elements & element & Ep & He & Hs).
      exists s, elements, element.
      split; [now left|]. split; [exact Ep|]. split; assumption.
    - destruct (IH Hin) as (s' & elements & element & Hs' & Rest).
      exists s', elements, element. split; [now right|exact Rest]. }
  destruct (filter (fun s => s_enabled (fst s)) sources) as [|s0 l0] eqn:Ef;
    [intros []|].
  rewrite <- Ef. intros Hin.
  destruct (Hall _ Hin) as ([source page] & elements & element & Hs & Ep
                            & He & Hscraped).
  cbn [fst snd] in *. subst page.
  apply filter_In in Hs as [Hs Hen]. cbn [fst] in Hen.
  exists source, elements, element.
  split; [exact Hs|]. split; [exact Hen|]. split; assumption.
Qed.

Lemma each_app (now : Z) (source : Source)
    (a b : list WebScraper.Element) :
  forall news,
    WebScraper.each now source (a ++ b) news
    = match WebScraper.each now source a news with
      | Normal news' => WebScraper.each now source b news'
      | Throw message => Throw message
      end.
Proof.
  induction a as [|element a IH]; intros news; [reflexivity|].
  cbn [app WebScraper.each].
  destruct (WebScraper.eachElement now source news element);
    [apply IH|reflexivity].
Qed.

(** X25: one element with a title and a relative link that [new URL] refuses
    voids the whole page: [scrapeWebPage] returns no record at all, the
    records of the elements before it included. *)
Theorem scrapeWebPage_bad_link_voids_page (now : Z) (source : Source)
    (before after : list WebScraper.Element) (bad : WebScraper.Element)
    (href message : jsstring) :
  WebScraper.e_title bad <> [] ->
  WebScraper.e_href bad = Some href ->
  href <> [] ->
  startsWith href (js "http") = false ->
  WebScraper.e_resolved bad = Throw message ->
  WebScraper.scrapeWebPage now source (Normal (before ++ bad :: after))
  = Normal [].
Proof.
  intros Ht Eh Hh Es Er. unfold WebScraper.scrapeWebPage.
  assert (Ebad : forall news,
             WebScraper.eachElement now source news bad = Throw message).
  { intros news. unfold WebScraper.eachElement. rewrite Eh.
    assert (Eo : orEmpty (Some href) = href).
    { unfold orEmpty, orElse. now destruct href. }
    rewrite Eo, Es, Er.
    apply nonempty_true in Ht, Hh. now rewrite Ht, Hh. }
  assert (Eeach : exists m,
             WebScraper.each now source (before ++ bad :: after) []
             = Throw m).
  { rewrite each_app.
    destruct (WebScraper.each now source before []) as [news|m]; [|eauto].
    cbn [WebScraper.each]. rewrite Ebad. eauto. }
  destruct Eeach as [m Em].
  destruct (before ++ bad :: after) as [|e l] eqn:El.
  - destruct before; discriminate.
  - rewrite Em. reflexivity.
Qed.

End Fetchers.

(** The theorem at four sources: one that gives an item, one that is
    switched off, one whose fetch throws, and one that gives an item; the
    records are those of the first and of the last. *)
Lemma fetchAllRSSFeeds_isolates_failures_witness :
  RssFetcher.fetchAllRSSFeeds 1000
    ([(fedPress,
       Normal (Some [feedItem (js "Fed holds rates")
                       (js "https://www.federalreserve.gov/a.htm")]));
      (switchedOff, Normal (Some []))]
     ++ (coinDesk, Throw (js "ETIMEDOUT"))
     :: [(coinDesk,
          Normal (Some [feedItem (js "Bitcoin falls")
                          (js "https://www.coindesk.com/b")]))])
  = RssFetcher.fetchAllRSSFeeds 1000
      [(fedPress,
        Normal (Some [feedItem (js "Fed holds rates")
                        (js "https://www.federalreserve.gov/a.htm")]));
       (switchedOff, Normal (Some []))]
    ++ RssFetcher.fetchAllRSSFeeds 1000
         [(coinDesk,
           Normal (Some [feedItem (js "Bitcoin falls")
                           (js "https://www.coindesk.com/b")]))].
Proof.
  exact (fetchAllRSSFeeds_isolates_failures 1000
           [(fedPress,
             Normal (Some [feedItem (js "Fed holds rates")
                             (js "https://www.federalreserve.gov/a.htm")]));
            (switchedOff, Normal (Some []))]
           [(coinDesk,
             Normal (Some [feedItem (js "Bitcoin falls")
                             (js "https://www.coindesk.com/b")]))]
           coinDesk (Throw (js "ETIMEDOUT"))
           (or_intror (or_introl (ex_intro _ (js "ETIMEDOUT") eq_refl)))).
Defined.

(** The records of the witness. *)
Example fetchAllRSSFeeds_two_of_four :
  map n_title
    (RssFetcher.fetchAllRSSFeeds 1000
       [(fedPress,
         Normal (Some [feedItem (js "Fed holds rates")
                         (js "https://www.federalreserve.gov/a.htm")]));
        (switchedOff, Normal (Some []));
        (coinDesk, Throw (js "ETIMEDOUT"));
        (coinDesk,
         Normal (Some [feedItem (js "Bitcoin falls")
                         (js "https://www.coindesk.com/b")]))])
  = [js "Fed holds rates"; js "Bitcoin falls"].
Proof. reflexivity. Qed.

(** The theorem at a page of two elements, the second with the link '//['. *)
Lemma scrapeWebPage_bad_link_voids_page_witness :
  WebScraper.scrapeWebPage 1000 speeches
    (Normal [absoluteElement; brokenElement])
  = Normal [].
Proof.
  apply (scrapeWebPage_bad_link_voids_page 1000 speeches [absoluteElement]
           [] brokenElement (js "//[") (js "Invalid URL")).
  - discriminate.
  - reflexivity.
  - discriminate.
  - reflexivity.
  - reflexivity.
Defined.
